(** * SpeeChain: phoneme-duration aggregation and tokenizer construction

    A shallow embedding of
      - [datasets/pyscripts/duration_calculator.py]
        ([cal_duration_by_tg], [dump_subset_metadata], the fan-out and
        gathering part of [main]), and
      - [speechain/tokenizer/abs.py] ([Tokenizer.__init__]),
    followed by the properties of the specification that are checked
    against it.

    Python values are modelled as follows.
      - [float] is IEEE binary64: Rocq's primitive [float], with its
        round-to-nearest-even [+] and [-].
      - [str] is [string], one [ascii] per character.  This is Python's
        string wherever every character concerned is ASCII; statements
        that depend on [s[-1]], [s[:-1]] or [isdigit] say so with
        [PyStr.is_ascii_char].
      - a call into a library that may raise for reasons outside the two
        files (the TextGrid parser, [load_idx2data_file], [os.makedirs],
        [np.savetxt]) is modelled by what it returns; the statements
        about [cal_duration_by_tg], [dump_subset_metadata] and [main]
        concern the runs in which these calls return.
      - a [list] is a [list]; [append] adds at the right end.
      - a [dict] whose iteration order is observed (the counter of the
        vocabulary, the subset dictionaries, the word-boundary dictionary)
        is an insertion-ordered association list ([od_set], [od_get]);
        the two global dictionaries [idx2text] and [idx2duration] are only
        ever accessed by key ([in], [[]], [pop], [update]) and are [gmap]s.
      - a raised exception is the [Raise] result of the [res] monad. *)

From Stdlib Require Import ZArith String Ascii List Floats Uint63 Sorted Lia.
From stdpp Require Import base option list gmap strings sorting.
Set Warnings "-inexact-float".

(* ===================================================================== *)
(** * Part I: the embedding                                               *)
(* ===================================================================== *)

(** ** Exceptions *)

Inductive exn := IndexError | KeyError | RuntimeError | ValueError.

Inductive res (A : Type) : Type :=
| Ok (a : A)
| Raise (e : exn).
Arguments Ok {A} a.
Arguments Raise {A} e.

#[global] Instance res_ret : MRet res := fun A a => Ok a.
#[global] Instance res_bind : MBind res := fun A B f m =>
  match m with
  | Ok a => f a
  | Raise e => Raise e
  end.

(** [executor.map] and list comprehensions over a fallible function: the
    first exception, in list order, is the one that is raised. *)
Fixpoint res_map {A B} (f : A -> res B) (l : list A) : res (list B) :=
  match l with
  | [] => Ok []
  | x :: l' => y ← f x; ys ← res_map f l'; Ok (y :: ys)
  end.

(** ** Numbers *)

Module PyNum.

(** [round(x, 2)] on a float.  CPython rounds the exact binary value of
    [x] to two decimals, ties to even, and returns the double closest to
    that decimal.  [|x| = m * 2^e]; [n] is [|x| * 100] rounded to an
    integer, ties to even; [n / 100] is then a correctly rounded division
    of two exactly represented numbers.  Zeros, infinities and NaN, and
    doubles too large to have a fractional part, round to themselves. *)
Definition round2 (x : float) : float :=
  match Prim2SF x with
  | S754_finite s m e =>
      if (0 <=? e)%Z then x
      else
        let num := (100 * Z.pos m)%Z in
        let den := (2 ^ (- e))%Z in
        let q := (num / den)%Z in
        let r := (num mod den)%Z in
        let n := if (2 * r <? den)%Z then q
                 else if (den <? 2 * r)%Z then (q + 1)%Z
                 else if Z.even q then q else (q + 1)%Z in
        if (n <? 2 ^ 53)%Z then
          let y := PrimFloat.div (PrimFloat.of_uint63 (Uint63.of_Z n)) 100%float in
          if s then PrimFloat.opp y else y
        else x
  | _ => x
  end.

(** The entries of a duration list: [round(<float>, 2)] is a float,
    [round(0, 2)] is the int [0]. *)
Inductive num :=
| PyInt (z : Z)
| PyFloat (f : float).

(** [int(z)] converted to float, for the ints small enough to be exact. *)
Definition float_of_int (z : Z) : float :=
  if (z <? 0)%Z then PrimFloat.opp (PrimFloat.of_uint63 (Uint63.of_Z (- z)))
  else PrimFloat.of_uint63 (Uint63.of_Z z).

(** [a + b] *)
Definition add (a b : num) : num :=
  match a, b with
  | PyInt x, PyInt y => PyInt (x + y)
  | PyInt x, PyFloat g => PyFloat (PrimFloat.add (float_of_int x) g)
  | PyFloat f, PyInt y => PyFloat (PrimFloat.add f (float_of_int y))
  | PyFloat f, PyFloat g => PyFloat (PrimFloat.add f g)
  end.

(** [a == b] *)
Definition eqb (a b : num) : bool :=
  match a, b with
  | PyInt x, PyInt y => (x =? y)%Z
  | PyInt x, PyFloat g => PrimFloat.eqb (float_of_int x) g
  | PyFloat f, PyInt y => PrimFloat.eqb f (float_of_int y)
  | PyFloat f, PyFloat g => PrimFloat.eqb f g
  end.

(** [round(z, 2)] on an int is the int itself. *)
Definition round2_int (z : Z) : num := PyInt z.

End PyNum.

(** ** Strings and lists *)

Module PyStr.

(** The characters below 128, on which [ascii] and Python's [str] agree. *)
Definition is_ascii_char (c : ascii) : bool := (nat_of_ascii c <? 128)%nat.

(** [c.isdigit()] for an ASCII character: ['0'] to ['9'].  Python also
    answers [True] on digits outside ASCII; those are not modelled, and
    the statements that read this function assume [is_ascii_char c]. *)
Definition isdigit (c : ascii) : bool :=
  let n := nat_of_ascii c in (48 <=? n)%nat && (n <=? 57)%nat.

(** [s[-1]]: the last character; [IndexError] on the empty string.  It is
    Python's [s[-1]] when the result is an ASCII character. *)
Fixpoint last_char (s : string) : res ascii :=
  match s with
  | EmptyString => Raise IndexError
  | String c EmptyString => Ok c
  | String _ s' => last_char s'
  end.

(** [s[:-1]]: all but the last character; [''[:-1]] is [''].  It is
    Python's [s[:-1]] when the last character is ASCII. *)
Fixpoint drop_last (s : string) : string :=
  match s with
  | EmptyString => EmptyString
  | String c EmptyString => EmptyString
  | String c s' => String c (drop_last s')
  end.

Fixpoint has_sep (s : string) : bool :=
  match s with
  | EmptyString => false
  | String c s' => Ascii.eqb c "/" || has_sep s'
  end.

(** [os.path.basename(p)]: what follows the last ['/'] *)
Fixpoint basename (p : string) : string :=
  match p with
  | EmptyString => EmptyString
  | String c r =>
      if has_sep r then basename r
      else if Ascii.eqb c "/" then r else p
  end.

(** [s.split('.')[0]]: what precedes the first ['.'] (all of [s] when it
    has none); [split] never returns an empty list. *)
Fixpoint split_dot_0 (s : string) : string :=
  match s with
  | EmptyString => EmptyString
  | String c r => if Ascii.eqb c "." then EmptyString else String c (split_dot_0 r)
  end.

End PyStr.

Module PyList.

(** [l[-1]]; [IndexError] on the empty list *)
Definition get_last {A} (l : list A) : res A :=
  match last l with
  | Some x => Ok x
  | None => Raise IndexError
  end.

(** [l[-1] += d] on a list of numbers; [IndexError] on the empty list *)
Definition iadd_last (l : list PyNum.num) (d : PyNum.num) : res (list PyNum.num) :=
  x ← get_last l; Ok (removelast l ++ [PyNum.add x d]).

(** [l.remove(x)]: drops the first occurrence; [ValueError] when absent *)
Fixpoint remove (x : string) (l : list string) : res (list string) :=
  match l with
  | [] => Raise ValueError
  | y :: l' => if String.eqb y x then Ok l' else l'' ← remove x l'; Ok (y :: l'')
  end.

(** [l[i::n]] for [n >= 1]: the elements at positions [i], [i+n],
    [i+2n], ...  [skip] counts the elements still to pass over. *)
Fixpoint stride {A} (n skip : nat) (l : list A) : list A :=
  match l with
  | [] => []
  | x :: l' =>
      match skip with
      | O => x :: stride n (n - 1) l'
      | S k => stride n k l'
      end
  end.

Definition slice_from_step {A} (i n : nat) (l : list A) : list A := stride n i l.

End PyList.

(** ** Insertion-ordered dictionaries *)

Module ODict.
Section odict.
Context {K V : Type} (keq : K -> K -> bool).

(** [d[k] = v]: an existing key keeps its place, a new one goes last *)
Fixpoint od_set (k : K) (v : V) (d : list (K * V)) : list (K * V) :=
  match d with
  | [] => [(k, v)]
  | (k', v') :: d' => if keq k' k then (k', v) :: d' else (k', v') :: od_set k v d'
  end.

(** [d.get(k)] *)
Fixpoint od_get (k : K) (d : list (K * V)) : option V :=
  match d with
  | [] => None
  | (k', v') :: d' => if keq k' k then Some v' else od_get k d'
  end.

Definition od_keys (d : list (K * V)) : list K := map fst d.
Definition od_values (d : list (K * V)) : list V := map snd d.

End odict.
End ODict.
Import ODict.

(** ** The duration calculator *)

Module Duration.

(** An interval of a TextGrid tier *)
Record Interval := mkInterval {
  minTime : float;
  maxTime : float;
  mark : string
}.

(** A parsed TextGrid: [tiers[0]] holds the words, [tiers[1]] the
    phonemes; each is the tier's [intervals]. *)
Record TextGrid := mkTextGrid {
  tiers_0 : list Interval;
  tiers_1 : list Interval
}.

(** [mark in ['sp', '', 'sil']] *)
Definition is_silence (m : string) : bool :=
  existsb (String.eqb m) ["sp"; ""; "sil"]%string.

(** The token and duration lists of one utterance *)
Definition seqs : Type := list string * list PyNum.num.

(** The word-boundary dictionary of line 126: rounded end time of each
    word, mapped to whether the word is not a silence. *)
Definition word_boundary_dict (words : list Interval) : list (float * bool) :=
  foldl (fun d word =>
           od_set PrimFloat.eqb (PyNum.round2 (maxTime word))
                  (negb (is_silence (mark word))) d)
        [] words.

(** Lines 135-140: the token of a non-silence phoneme.  [and] does not
    evaluate [phn.mark[-1]] when [retain_stress] is set. *)
Definition phn_token (retain_stress : bool) (m : string) : res string :=
  strip ← (if negb retain_stress
           then c ← PyStr.last_char m; Ok (PyStr.isdigit c)
           else Ok false);
  let phn_token := if (strip : bool) then PyStr.drop_last m else m in
  Ok (if negb (String.eqb phn_token "spn") then phn_token else "<unk>"%string).

(** Line 130: [round(phn.maxTime - phn.minTime, 2)] and
    [round(phn.maxTime, 2)] *)
Definition phn_duration (phn : Interval) : PyNum.num :=
  PyNum.PyFloat (PyNum.round2 (PrimFloat.sub (maxTime phn) (minTime phn))).

Definition phn_boundary (phn : Interval) : float := PyNum.round2 (maxTime phn).

(** Lines 133-150: the phoneme is recorded. *)
Definition record_phn (retain_stress : bool) (phn : Interval) (st : seqs) : res seqs :=
  let phn_duration := phn_duration phn in
  if negb (is_silence (mark phn)) then
    tok ← phn_token retain_stress (mark phn);
    Ok (st.1 ++ [tok], st.2 ++ [phn_duration])
  else
    fresh ← (if (length st.1 =? 0)%nat then Ok true
             else t ← PyList.get_last st.1; Ok (negb (String.eqb t "<space>")));
    if (fresh : bool) then Ok (st.1 ++ ["<space>"%string], st.2 ++ [phn_duration])
    else durs ← PyList.iadd_last st.2 phn_duration; Ok (st.1, durs).

(** Lines 152-154: the word-boundary space. *)
Definition mark_boundary (wbd : list (float * bool)) (phn : Interval) (st : seqs) : seqs :=
  let phn_boundary := phn_boundary phn in
  match od_get PrimFloat.eqb phn_boundary wbd with
  | Some true => (st.1 ++ ["<space>"%string], st.2 ++ [PyNum.round2_int 0])
  | _ => st
  end.

(** One iteration of the loop over the phoneme tier (lines 128-154). *)
Definition phn_step (retain_stress : bool) (wbd : list (float * bool))
    (phn : Interval) (st : seqs) : res seqs :=
  st' ← record_phn retain_stress phn st;
  Ok (mark_boundary wbd phn st').

(** The loop over the phoneme tier. *)
Fixpoint scan_phns (retain_stress : bool) (wbd : list (float * bool))
    (phns : list Interval) (st : seqs) : res seqs :=
  match phns with
  | [] => Ok st
  | phn :: phns' => st' ← phn_step retain_stress wbd phn st; scan_phns retain_stress wbd phns' st'
  end.

(** Line 157: [len(text) == 1 and text[0] == '<space>'] *)
Definition only_space (text : list string) : bool :=
  (length text =? 1)%nat &&
  match text with
  | t :: _ => String.eqb t "<space>"
  | [] => false
  end.

Section files.
(** [tg.TextGrid.fromFile]: what the parser returns for a path, with the
    intervals of its first two tiers.  A file that the parser refuses, or
    that has fewer than two tiers, makes line 125, 126 or 128 raise; such
    files are outside this model. *)
Variable fromFile : string -> TextGrid.

Definition dicts : Type := gmap string (list string) * gmap string (list PyNum.num).

(** Line 122 *)
Definition file_name (tg_file : string) : string :=
  PyStr.split_dot_0 (PyStr.basename tg_file).

(** The token and duration lists that the scan of one file builds under
    its key (lines 123-154). *)
Definition scan_file (retain_stress : bool) (tg_file : string) : res seqs :=
  let text_grid := fromFile tg_file in
  let word_boundary_dict := word_boundary_dict (tiers_0 text_grid) in
  scan_phns retain_stress word_boundary_dict (tiers_1 text_grid) ([], []).

(** One iteration of the loop over the files (lines 122-159).  The two
    lists are created under [file_name], replacing what was there, and
    the key is popped again when they hold a single space. *)
Definition process_file (retain_stress : bool) (tg_file : string) (st : dicts) : res dicts :=
  s ← scan_file retain_stress tg_file;
  if only_space s.1
  then Ok (delete (file_name tg_file) st.1, delete (file_name tg_file) st.2)
  else Ok (<[file_name tg_file := s.1]> st.1, <[file_name tg_file := s.2]> st.2).

Fixpoint cal_loop (retain_stress : bool) (tg_file_list : list string) (st : dicts) : res dicts :=
  match tg_file_list with
  | [] => Ok st
  | tg_file :: rest => st' ← process_file retain_stress tg_file st; cal_loop retain_stress rest st'
  end.

Definition cal_duration_by_tg (tg_file_list : list string) (retain_stress : bool) : res dicts :=
  cal_loop retain_stress tg_file_list (∅, ∅).

(** [main], lines 198-211: the file list is cut into [ncpu] slices
    [tg_file_list[i::ncpu]], each slice goes through [cal_duration_by_tg]
    ([executor.map] returns the results in the order of the slices), and
    the results are gathered with [dict.update].  [Pool(0)] raises
    [ValueError]. *)
Definition gather (results : list dicts) : dicts :=
  foldl (fun acc r => (r.1 ∪ acc.1, r.2 ∪ acc.2)) (∅, ∅) results.

Definition main_gather (tg_file_list : list string) (retain_stress : bool) (ncpu : nat) : res dicts :=
  if (length tg_file_list =? 0)%nat then Raise RuntimeError
  else
    let func_args := map (fun i => PyList.slice_from_step i ncpu tg_file_list) (seq 0 ncpu) in
    if (ncpu =? 0)%nat then Raise ValueError
    else
      text_duration_results ← res_map (fun chunk => cal_duration_by_tg chunk retain_stress) func_args;
      Ok (gather text_duration_results).

(** What a file leaves under its key when its iteration is over: its two
    lists, or nothing when they are popped. *)
Definition kept (retain_stress : bool) (tg_file : string) : option seqs :=
  match scan_file retain_stress tg_file with
  | Ok s => if only_space s.1 then None else Some s
  | Raise _ => None
  end.

End files.

(** The effect of one file, and of a list of files, on one dictionary, in
    terms of what each file leaves under its key. *)
Definition settle {V} (k : string) (o : option V) (m : gmap string V) : gmap string V :=
  match o with
  | Some v => <[k := v]> m
  | None => delete k m
  end.

Definition settle_all {F V} (key : F -> string) (o : F -> option V)
    (files : list F) (m : gmap string V) : gmap string V :=
  foldl (fun m f => settle (key f) (o f) m) m files.

(** *** [dump_subset_metadata] *)

(** [Counter(l)]: counts per distinct element, in order of first
    occurrence. *)
Definition Counter (l : list string) : list (string * nat) :=
  foldl (fun d x =>
           od_set String.eqb x
             (match od_get String.eqb x d with Some n => n + 1 | None => 1 end)%nat d)
        [] l.

(** [a] occurs in [l] before the first occurrence of [b]. *)
Definition first_before (l : list string) (a b : string) : Prop :=
  ∃ l1 l2, l = l1 ++ a :: l2 ∧ b ∉ l1.

(** [sorted(l, key=key, reverse=True)]: descending and stable (elements
    with equal keys keep their order).  [insert_desc] places [x], which
    came first, before the elements whose key is not larger. *)
Fixpoint insert_desc {A} (key : A -> nat) (x : A) (l : list A) : list A :=
  match l with
  | [] => [x]
  | y :: l' => if (key x <? key y)%nat then y :: insert_desc key x l' else x :: y :: l'
  end.

Definition sorted_reverse {A} (key : A -> nat) (l : list A) : list A :=
  foldr (insert_desc key) [] l.

(** Lines 64-66: the subset dictionaries, in the order of the subset's
    indices. *)
Definition subset_of {V} (subset_indices : list string) (idx2data : gmap string V)
  : list (string * V) :=
  foldl (fun d index =>
           match idx2data !! index with
           | Some v => od_set String.eqb index v d
           | None => d
           end)
        [] subset_indices.

(** Lines 82-91 *)
Definition build_vocab (subset_idx2text : list (string * list string)) : res (list string) :=
  let subset_phns := concat (od_values subset_idx2text) in
  let phn2freq := sorted_reverse snd (Counter subset_phns) in
  let subset_phns := map fst phn2freq in
  subset_phns ← (if existsb (String.eqb "<unk>") subset_phns
                 then PyList.remove "<unk>" subset_phns
                 else Ok subset_phns);
  Ok (["<blank>"%string] ++ subset_phns ++ ["<unk>"; "<sos/eos>"]%string).

(** What [dump_subset_metadata] writes: the rows of the four files. *)
Record Metadata := mkMetadata {
  idx2text_rows : list (string * list string);
  idx2text_len_rows : list (string * nat);
  vocab_rows : list string;
  idx2duration_rows : list (string * list PyNum.num)
}.

Definition dump_subset_metadata (subset_indices : list string)
    (idx2text : gmap string (list string)) (idx2duration : gmap string (list PyNum.num))
  : res Metadata :=
  let subset_idx2text := subset_of subset_indices idx2text in
  let subset_idx2duration := subset_of subset_indices idx2duration in
  subset_phn_vocab ← build_vocab subset_idx2text;
  Ok {| idx2text_rows := subset_idx2text;
        idx2text_len_rows := map (fun it => (it.1, length it.2)) subset_idx2text;
        vocab_rows := subset_phn_vocab;
        idx2duration_rows := subset_idx2duration |}.

End Duration.

(** ** The tokenizer constructor *)

Module Tokenizer.

(** What the constructor does to the file system, in order. *)
Inductive event :=
| Load (path : string)
| SaveTxt (path : string) (rows : list string).

(** Computations that log their file accesses and may raise. *)
Definition M (A : Type) : Type := list event -> res A * list event.

#[global] Instance M_ret : MRet M := fun A a log => (Ok a, log).
#[global] Instance M_bind : MBind M := fun A B f m log =>
  match m log with
  | (Ok a, log') => f a log'
  | (Raise e, log') => (Raise e, log')
  end.

Definition emit (ev : event) : M unit := fun log => (Ok tt, log ++ [ev]).
Definition lift {A} (r : res A) : M A := fun log => (r, log).

(** [try: body except KeyError: handler] *)
Definition try_except_KeyError {A} (body handler : M A) : M A := fun log =>
  match body log with
  | (Raise KeyError, log') => handler log'
  | out => out
  end.

(** The member variables that [__init__] registers. *)
Record t := mkTokenizer {
  token_vocab : string;
  idx2token : list (Z * string);
  token2idx : list (string * Z);
  vocab_size : nat;
  sos_eos_idx : Z;
  ignore_idx : Z;
  unk_idx : Z
}.

(** [d[k]]; [KeyError] when the key is missing *)
Definition getitem (d : list (string * Z)) (k : string) : res Z :=
  match od_get String.eqb k d with
  | Some v => Ok v
  | None => Raise KeyError
  end.

(** [dict(map(reversed, d.items()))] *)
Definition reversed_dict (d : list (Z * string)) : list (string * Z) :=
  foldl (fun acc it => od_set String.eqb it.2 it.1 acc) [] d.

(** [os.path.join(a, b)] for a relative [b] *)
Definition path_join (a b : string) : string :=
  if String.eqb a "" then b
  else match PyStr.last_char a with
       | Ok "/"%char => (a ++ b)%string
       | _ => (a ++ "/" ++ b)%string
       end.

(** Lines 60-64 and 68-72: the variables derived from a loaded
    vocabulary. *)
Definition register (path : string) (vocab : list (Z * string)) : res t :=
  let token2idx := reversed_dict vocab in
  let vocab_size := length token2idx in
  sos_eos_idx ← getitem token2idx "<sos/eos>";
  ignore_idx ← getitem token2idx "<blank>";
  unk_idx ← getitem token2idx "<unk>";
  Ok (mkTokenizer path vocab token2idx vocab_size sos_eos_idx ignore_idx unk_idx).

(** The three reserved symbols are tokens of the vocabulary. *)
Definition has_reserved (vocab : list (Z * string)) : Prop :=
  "<sos/eos>"%string ∈ vocab.*2 ∧ "<blank>"%string ∈ vocab.*2 ∧ "<unk>"%string ∈ vocab.*2.

Section env.
(** The collaborators of the constructor: path resolution, the file
    system and the loader of index-to-data files. *)
Variable parse_path_args : string -> string.
Variable path_exists : string -> bool.
Variable load_idx2data_file : string -> list (Z * string).

Definition load (path : string) : M (list (Z * string)) :=
  _ ← emit (Load path); mret (load_idx2data_file path).

(** Lines 50-55: the path the vocabulary is first read from, given the
    resolved [copy_path]. *)
Definition first_path (token_vocab : string) (copy_path : option string) : string :=
  match copy_path with
  | Some cp =>
      if path_exists (path_join cp "token_vocab") then path_join cp "token_vocab"
      else parse_path_args token_vocab
  | None => parse_path_args token_vocab
  end.

(** [Tokenizer.__init__], lines 48-76. *)
Definition init (token_vocab : string) (copy_path : option string) : M t :=
  let copy_path := parse_path_args <$> copy_path in
  let self_token_vocab := first_path token_vocab copy_path in
  vocab ← load self_token_vocab;
  self ← try_except_KeyError
           (lift (register self_token_vocab vocab))
           (let self_token_vocab := parse_path_args token_vocab in
            vocab ← load self_token_vocab;
            lift (register self_token_vocab vocab));
  _ ← match copy_path with
      | Some cp => emit (SaveTxt (path_join cp "token_vocab") (od_keys (token2idx self)))
      | None => mret tt
      end;
  mret self.

End env.

(** [d[idx]] on [idx2token]; [KeyError] when the index is missing *)
Definition getitem_idx (d : list (Z * string)) (idx : Z) : res string :=
  match od_get Z.eqb idx d with
  | Some tok => Ok tok
  | None => Raise KeyError
  end.

(** [tensor2text], lines 117-118, on [tensor.tolist()]: the indices other
    than [sos_eos_idx] are looked up in order, [unk_idx] giving a star,
    and the strings are joined. *)
Definition tensor2text (self : t) (tensor : list Z) : res string :=
  pieces ← res_map
             (fun idx => if negb (idx =? unk_idx self)%Z
                         then getitem_idx (idx2token self) idx
                         else Ok "*"%string)
             (List.filter (fun idx => negb (idx =? sos_eos_idx self)%Z) tensor);
  Ok (String.concat "" pieces).

End Tokenizer.

(** ** The driver *)

Module Main.
Import Duration.

(** [os.path.join(a, b)] and [os.path.join(a, b, c, ...)] *)
Definition path_join (a b : string) : string :=
  if String.prefix "/" b then b
  else if String.eqb a "" then b
  else match PyStr.last_char a with
       | Ok "/"%char => (a ++ b)%string
       | _ => (a ++ "/" ++ b)%string
       end.

Definition path_join_all (a : string) (parts : list string) : string :=
  foldl path_join a parts.

(** What [dump_subset_metadata] does to the file system: [os.makedirs]
    and the four [np.savetxt], each with the rows it is given. *)
Inductive write :=
| MakeDirs (path : string)
| SaveIdx2text (path : string) (rows : list (string * list string))
| SaveIdx2textLen (path : string) (rows : list (string * nat))
| SaveVocab (path : string) (rows : list string)
| SaveIdx2duration (path : string) (rows : list (string * list PyNum.num)).

(** The writes of one call of [dump_subset_metadata], for the rows that it
    computes. *)
Definition metadata_writes (subset_path : string) (md : Metadata) : list write :=
  [ MakeDirs subset_path;
    SaveIdx2text (path_join subset_path "idx2text") (idx2text_rows md);
    SaveIdx2textLen (path_join subset_path "idx2text_len") (idx2text_len_rows md);
    SaveVocab (path_join subset_path "vocab") (vocab_rows md);
    MakeDirs subset_path;
    SaveIdx2duration (path_join subset_path "idx2duration") (idx2duration_rows md) ].

(** How [main] ends when it does not return. *)
Inductive failure :=
| AssertionError
| Raised (e : exn).

Section env.
(** The collaborators of [main]: path resolution, the search for the
    [.TextGrid] files under a folder, [os.listdir], the keys of the
    [idx2wav] file at a path, and the TextGrid parser.  Each is given by
    what it returns; the exceptions that the file system can make them
    raise (a missing [idx2wav] file, a folder that cannot be created or
    written) are outside this model, and so are those of [os.makedirs]
    and [np.savetxt], which are logged as writes that succeed. *)
Variable parse_path_args : string -> string.
Variable search_file_in_subfolder : string -> list string.
Variable listdir : string -> list string.
Variable load_idx2wav_keys : string -> list string.
Variable fromFile : string -> TextGrid.

(** [dump_subset_metadata], lines 64-102, with its writes in order.  The
    result is the exception that ended it, if any, and the log. *)
Definition dump_subset_metadata_io (dataset_path save_path subset_name : string)
    (retain_stress : bool)
    (idx2text : gmap string (list string)) (idx2duration : gmap string (list PyNum.num))
    (log : list write) : option failure * list write :=
  let subset_indices :=
    load_idx2wav_keys (path_join_all dataset_path [subset_name; "idx2wav"%string]) in
  let subset_idx2text := subset_of subset_indices idx2text in
  let subset_idx2duration := subset_of subset_indices idx2duration in
  let subset_path :=
    path_join_all save_path
      [subset_name; if retain_stress then "stress"%string else "no-stress"%string] in
  let log := log ++ [MakeDirs subset_path;
                     SaveIdx2text (path_join subset_path "idx2text") subset_idx2text;
                     SaveIdx2textLen (path_join subset_path "idx2text_len")
                       (map (fun it => (it.1, length it.2)) subset_idx2text)] in
  match build_vocab subset_idx2text with
  | Raise e => (Some (Raised e), log)
  | Ok subset_phn_vocab =>
      (None,
       log ++ [SaveVocab (path_join subset_path "vocab") subset_phn_vocab;
               MakeDirs subset_path;
               SaveIdx2duration (path_join subset_path "idx2duration") subset_idx2duration])
  end.

(** The loop of lines 217-219: one dump per name, until one raises. *)
Fixpoint dump_each (dataset_path save_path : string) (names : list string)
    (retain_stress : bool)
    (idx2text : gmap string (list string)) (idx2duration : gmap string (list PyNum.num))
    (log : list write) : option failure * list write :=
  match names with
  | [] => (None, log)
  | file_name :: rest =>
      match dump_subset_metadata_io dataset_path save_path file_name retain_stress
              idx2text idx2duration log with
      | (None, log') =>
          dump_each dataset_path save_path rest retain_stress idx2text idx2duration log'
      | out => out
      end
  end.

(** [main], lines 185-222. *)
Definition main (data_path pretrained_model_name : string) (retain_stress : bool)
    (dataset_name : string) (subset_name save_path : option string) (ncpu : nat)
    (log : list write) : option failure * list write :=
  if negb (existsb (String.eqb dataset_name) ["ljspeech"; "libritts"; "librispeech"]%string)
  then (Some AssertionError, log)
  else
    let data_path := parse_path_args data_path in
    let save_path :=
      match save_path with
      | None => path_join_all data_path ["mfa"%string; pretrained_model_name]
      | Some p => p
      end in
    let textgrid_path :=
      path_join_all data_path ["mfa"%string; pretrained_model_name; "TextGrid"%string] in
    let textgrid_path :=
      match subset_name with
      | Some name => path_join textgrid_path name
      | None => textgrid_path
      end in
    let tg_file_list := search_file_in_subfolder textgrid_path in
    match main_gather fromFile tg_file_list retain_stress ncpu with
    | Raise e => (Some (Raised e), log)
    | Ok (idx2text, idx2duration) =>
        let dataset_path := path_join data_path "wav" in
        match subset_name with
        | None =>
            dump_each dataset_path save_path (listdir textgrid_path) retain_stress
              idx2text idx2duration log
        | Some name =>
            dump_subset_metadata_io dataset_path save_path name retain_stress
              idx2text idx2duration log
        end
    end.

End env.
End Main.

(** ** Sample inputs *)

Module Samples.
Import Duration.

(** Three adjacent silences of 0.10 s, 0.20 s and 0.05 s. *)
Definition three_silences : list Interval :=
  [ mkInterval 0 0.1 "sil"; mkInterval 0.1 0.3 "sp"; mkInterval 0.3 0.35 "" ].

(** The word "an" and a closing pause that the aligner cut into three
    silences of 0.10 s, 0.20 s and 0.05 s. *)
Definition word_then_three_silences : TextGrid :=
  {| tiers_0 := [ mkInterval 0 0.2 "an"; mkInterval 0.2 0.55 "" ];
     tiers_1 := [ mkInterval 0 0.1 "AH0"; mkInterval 0.1 0.2 "N";
                  mkInterval 0.2 0.3 "sil"; mkInterval 0.3 0.5 "sp";
                  mkInterval 0.5 0.55 "" ] |}.

(** An opening pause that the aligner cut into the three silences above,
    and then the word "a". *)
Definition three_silences_then_word : TextGrid :=
  {| tiers_0 := [ mkInterval 0 0.35 ""; mkInterval 0.35 0.45 "a" ];
     tiers_1 := three_silences ++ [ mkInterval 0.35 0.45 "AH0" ] |}.

(** A silence, a vowel, a silence. *)
Definition silence_vowel_silence : list Interval :=
  [ mkInterval 0 0.1 "sil"; mkInterval 0.1 0.3 "AE1"; mkInterval 0.3 0.35 "sp" ].

(** The word "a" followed by a pause; in the phoneme tier the pause
    starts inside the word. *)
Definition word_then_pause : TextGrid :=
  {| tiers_0 := [ mkInterval 0 0.3 "a"; mkInterval 0.3 0.5 "" ];
     tiers_1 := [ mkInterval 0 0.2 "AH0"; mkInterval 0.2 0.3 "sp"; mkInterval 0.3 0.5 "" ] |}.

(** An utterance with speech and one that is a single pause. *)
Definition speech_grid : TextGrid :=
  {| tiers_0 := [ mkInterval 0 0.3 "at" ];
     tiers_1 := [ mkInterval 0 0.1 "AE1"; mkInterval 0.1 0.3 "T" ] |}.

Definition pause_grid : TextGrid :=
  {| tiers_0 := [ mkInterval 0 0.4 "" ];
     tiers_1 := [ mkInterval 0 0.4 "" ] |}.

(** A word that the aligner left without phonemes: one silence that ends
    where the word ends. *)
Definition unaligned_word_grid : TextGrid :=
  {| tiers_0 := [ mkInterval 0 0.4 "hm" ];
     tiers_1 := [ mkInterval 0 0.4 "sp" ] |}.

(** Two speakers' folders, each with a file [utt.TextGrid]. *)
Definition two_speakers (path : string) : TextGrid :=
  if String.eqb path "spk1/utt.TextGrid" then speech_grid else pause_grid.

Definition two_speakers_files : list string :=
  [ "spk1/utt.TextGrid"; "spk2/utt.TextGrid" ]%string.

(** Files with distinct names. *)
Definition three_files : list string :=
  [ "spk1/a.TextGrid"; "spk1/b.TextGrid"; "spk2/c.TextGrid" ]%string.

Definition three_grids (path : string) : TextGrid :=
  if String.eqb path "spk1/b.TextGrid" then pause_grid else speech_grid.

(** An alignment whose phoneme tier has the mark "<blank>". *)
Definition blank_grid : TextGrid :=
  {| tiers_0 := [ mkInterval 0 0.3 "" ];
     tiers_1 := [ mkInterval 0 0.1 "<blank>"; mkInterval 0.1 0.3 "AH0" ] |}.

(** Two utterances of a subset. *)
Definition subset_text : gmap string (list string) :=
  <["u1"%string := ["a"; "b"; "a"; "c"]%string]>
    (<["u2"%string := ["b"; "<unk>"; "d"; "c"]%string]> ∅).

Definition subset_duration : gmap string (list PyNum.num) :=
  <["u1"%string := PyNum.PyFloat <$> [0.1; 0.2; 0.1; 0.3]%float]>
    (<["u2"%string := PyNum.PyFloat <$> [0.2; 0.5; 0.1; 0.1]%float]> ∅).

(** An experiment folder whose backup of the vocabulary lacks
    "<sos/eos>"; the vocabulary of the data set has it.  Paths resolve to
    themselves. *)
Definition exp_exists (path : string) : bool := String.eqb path "exp/token_vocab".

Definition exp_load (path : string) : list (Z * string) :=
  if String.eqb path "exp/token_vocab"
  then [(0, "<blank>"); (1, "AH0"); (2, "<unk>")]%Z%string
  else [(0, "<blank>"); (1, "AH0"); (2, "<unk>"); (3, "<sos/eos>")]%Z%string.

End Samples.

(* ===================================================================== *)
(** * Part II: properties                                                 *)
(* ===================================================================== *)

(** ** The [res] monad *)

Lemma res_bind_Ok {A B} (f : A -> res B) (a : A) : (Ok a ≫= f) = f a.
Proof. reflexivity. Qed.

Lemma res_bind_Raise {A B} (f : A -> res B) (e : exn) : (Raise e ≫= f) = Raise e.
Proof. reflexivity. Qed.

Ltac res_simpl :=
  repeat (rewrite ?res_bind_Ok, ?res_bind_Raise; simpl).

(** ** Strings and lists *)

Lemma last_char_snoc (s : string) (c : ascii) :
  PyStr.last_char (s ++ String c "") = Ok c.
Proof.
  induction s as [|a s IH]; simpl; [done|].
  rewrite IH. by destruct s.
Qed.


(** A non-empty string is its [s[:-1]] followed by its [s[-1]]. *)
Lemma string_snoc_inv (m : string) :
  m ≠ ""%string -> ∃ c, m = (PyStr.drop_last m ++ String c "")%string.
Proof.
  induction m as [|a m IH]; [done|]. intros _.
  destruct m as [|b m].
  - by exists a.
  - destruct IH as [c Hc]; [done|]. exists c.
    change (String a (String b m)
            = String a (PyStr.drop_last (String b m) ++ String c "")%string).
    f_equal. exact Hc.
Qed.

Lemma is_silence_nonempty (m : string) : Duration.is_silence m = false -> m ≠ ""%string.
Proof. intros H ->. discriminate H. Qed.

Lemma get_last_snoc {A} (l : list A) (x : A) : PyList.get_last (l ++ [x]) = Ok x.
Proof. unfold PyList.get_last. by rewrite last_snoc. Qed.

Lemma iadd_last_snoc (l : list PyNum.num) (x d : PyNum.num) :
  PyList.iadd_last (l ++ [x]) d = Ok (l ++ [PyNum.add x d]).
Proof.
  unfold PyList.iadd_last. rewrite get_last_snoc. res_simpl.
  by rewrite removelast_last.
Qed.

(** ** The scan of the phoneme tier *)

Section scan.
Import Duration.
Implicit Types (st : seqs) (phn : Interval) (wbd : list (float * bool)).

(** The token of a non-silence mark, spelled out. *)
Lemma phn_token_Ok (retain_stress : bool) (m : string) :
  is_silence m = false ->
  ∃ c, m = (PyStr.drop_last m ++ String c "")%string ∧
       phn_token retain_stress m =
         Ok (let text := if negb retain_stress && PyStr.isdigit c
                         then PyStr.drop_last m else m in
             if String.eqb text "spn" then "<unk>"%string else text).
Proof.
  intros Hm. destruct (string_snoc_inv m (is_silence_nonempty m Hm)) as [c Hc].
  exists c. split; [exact Hc|].
  unfold phn_token. destruct retain_stress; simpl.
  - by destruct (String.eqb m "spn").
  - rewrite Hc at 1. rewrite last_char_snoc. res_simpl.
    destruct (PyStr.isdigit c); simpl.
    + by destruct (String.eqb (PyStr.drop_last m) "spn").
    + by destruct (String.eqb m "spn").
Qed.

Lemma record_phn_speech (retain_stress : bool) phn st :
  is_silence (mark phn) = false ->
  ∃ tok, phn_token retain_stress (mark phn) = Ok tok ∧
         record_phn retain_stress phn st = Ok (st.1 ++ [tok], st.2 ++ [phn_duration phn]).
Proof.
  intros Hm. destruct (phn_token_Ok retain_stress _ Hm) as (c & _ & Htok).
  eexists. split; [exact Htok|].
  unfold record_phn. rewrite Hm, Htok. reflexivity.
Qed.

(** A silence after nothing, or after a token other than the space. *)
Lemma record_phn_silence_fresh (retain_stress : bool) phn st :
  is_silence (mark phn) = true ->
  last st.1 ≠ Some "<space>"%string ->
  record_phn retain_stress phn st =
    Ok (st.1 ++ ["<space>"%string], st.2 ++ [phn_duration phn]).
Proof.
  intros Hm Hlast. unfold record_phn. rewrite Hm. simpl.
  destruct st as [toks durs]; simpl in *.
  destruct toks as [|t0 toks0] using rev_ind; [done|].
  rewrite last_snoc in Hlast. rewrite length_app, Nat.add_1_r. simpl.
  rewrite get_last_snoc. res_simpl.
  destruct (String.eqb_spec t0 "<space>"); [congruence|done].
Qed.

(** A silence after a space: the duration goes into the last entry. *)
Lemma record_phn_silence_merge (retain_stress : bool) phn toks durs d :
  is_silence (mark phn) = true ->
  record_phn retain_stress phn (toks ++ ["<space>"%string], durs ++ [d]) =
    Ok (toks ++ ["<space>"%string], durs ++ [PyNum.add d (phn_duration phn)]).
Proof.
  intros Hm. unfold record_phn. rewrite Hm. simpl.
  rewrite length_app, Nat.add_1_r. simpl.
  rewrite get_last_snoc. res_simpl. by rewrite iadd_last_snoc.
Qed.

(** Recording a phoneme never raises on lists of equal length, and keeps
    them of equal length. *)
Lemma record_phn_total (retain_stress : bool) phn st :
  length st.1 = length st.2 ->
  ∃ st', record_phn retain_stress phn st = Ok st' ∧ length st'.1 = length st'.2.
Proof.
  intros Hlen. destruct (is_silence (mark phn)) eqn:Hm.
  - destruct (decide (last st.1 = Some "<space>"%string)) as [Hl|Hl].
    + destruct st as [toks durs]; simpl in *.
      destruct toks as [|t toks _] using rev_ind; [done|].
      rewrite last_snoc in Hl. injection Hl as ->.
      destruct durs as [|d durs _] using rev_ind.
      { rewrite length_app in Hlen. simpl in Hlen. lia. }
      eexists. split; [by apply record_phn_silence_merge|].
      simpl. rewrite !length_app in *. simpl in *. lia.
    + eexists. split; [by apply record_phn_silence_fresh|].
      simpl. rewrite !length_app. simpl. lia.
  - destruct (record_phn_speech retain_stress phn st Hm) as (tok & _ & ->).
    eexists. split; [done|]. simpl. rewrite !length_app. simpl. lia.
Qed.

Lemma mark_boundary_length wbd phn st :
  length st.1 = length st.2 ->
  length (mark_boundary wbd phn st).1 = length (mark_boundary wbd phn st).2.
Proof.
  intros Hlen. unfold mark_boundary.
  destruct (od_get _ _ _) as [[]|]; simpl; rewrite ?length_app; simpl; lia.
Qed.

Lemma phn_step_total (retain_stress : bool) wbd phn st :
  length st.1 = length st.2 ->
  ∃ st1, record_phn retain_stress phn st = Ok st1 ∧
         length st1.1 = length st1.2 ∧
         phn_step retain_stress wbd phn st = Ok (mark_boundary wbd phn st1) ∧
         length (mark_boundary wbd phn st1).1 = length (mark_boundary wbd phn st1).2.
Proof.
  intros Hlen.
  destruct (record_phn_total retain_stress phn st Hlen) as (st1 & Hrec & Hlen1).
  exists st1. unfold phn_step. rewrite Hrec. res_simpl.
  eauto using mark_boundary_length.
Qed.

Lemma scan_phns_total (retain_stress : bool) wbd (phns : list Interval) st :
  length st.1 = length st.2 ->
  ∃ st', scan_phns retain_stress wbd phns st = Ok st' ∧ length st'.1 = length st'.2.
Proof.
  revert st. induction phns as [|phn phns IH]; intros st Hlen; simpl.
  - eauto.
  - destruct (phn_step_total retain_stress wbd phn st Hlen) as (st1 & _ & _ & -> & Hlen').
    res_simpl. by apply IH.
Qed.

Lemma scan_phns_app (retain_stress : bool) wbd (l1 l2 : list Interval) st :
  scan_phns retain_stress wbd (l1 ++ l2) st =
    scan_phns retain_stress wbd l1 st ≫= scan_phns retain_stress wbd l2.
Proof.
  revert st. induction l1 as [|phn l1 IH]; intros st; simpl; [done|].
  destruct (phn_step retain_stress wbd phn st); res_simpl; [apply IH|done].
Qed.

End scan.

(** ** One dictionary under a list of files *)

Section settle.
Context {F V : Type} (key : F -> string) (o : F -> option V).
Implicit Types (m : gmap string V) (files : list F).
Import Duration.

Lemma lookup_settle k (ov : option V) m j :
  settle k ov m !! j = if decide (k = j) then ov else m !! j.
Proof.
  unfold settle. destruct ov; [apply lookup_insert|].
  rewrite lookup_delete. by case_decide.
Qed.

Lemma settle_all_cons files f m :
  settle_all key o (f :: files) m = settle_all key o files (settle (key f) (o f) m).
Proof. reflexivity. Qed.

(** A key that no file has is left alone. *)
Lemma lookup_settle_all_notin files m k :
  k ∉ key <$> files -> settle_all key o files m !! k = m !! k.
Proof.
  revert m. induction files as [|f files IH]; intros m Hk; [done|].
  rewrite fmap_cons, not_elem_of_cons in Hk. destruct Hk as [Hne Hk].
  rewrite settle_all_cons, IH by done.
  rewrite lookup_settle. by case_decide.
Qed.

(** The last file with a given key decides what is under the key. *)
Lemma lookup_settle_all_last before f after m :
  key f ∉ key <$> after ->
  settle_all key o (before ++ f :: after) m !! key f = o f.
Proof.
  intros Hk. unfold settle_all. rewrite foldl_app. simpl.
  fold (settle_all key o before m).
  fold (settle_all key o after (settle (key f) (o f) (settle_all key o before m))).
  rewrite lookup_settle_all_notin by done.
  rewrite lookup_settle. by case_decide.
Qed.

(** With distinct keys, the dictionary holds what the files leave. *)
Lemma lookup_settle_all_NoDup files k v :
  NoDup (key <$> files) ->
  settle_all key o files ∅ !! k = Some v ↔ ∃ f, f ∈ files ∧ key f = k ∧ o f = Some v.
Proof.
  intros Hnd. split.
  - destruct (decide (k ∈ key <$> files)) as [Hin|Hnin].
    + apply list_elem_of_fmap in Hin as (f & -> & Hf).
      apply list_elem_of_split in Hf as (before & after & ->).
      rewrite fmap_app, fmap_cons in Hnd.
      apply NoDup_app in Hnd as (_ & _ & Hnd). apply NoDup_cons in Hnd as [Hnin _].
      rewrite lookup_settle_all_last by done.
      intros Hv. exists f. split; [|done]. set_solver.
    + rewrite lookup_settle_all_notin by done. by rewrite lookup_empty.
  - intros (f & Hf & <- & Hv).
    apply list_elem_of_split in Hf as (before & after & ->).
    rewrite fmap_app, fmap_cons in Hnd.
    apply NoDup_app in Hnd as (_ & _ & Hnd). apply NoDup_cons in Hnd as [Hnin _].
    by rewrite lookup_settle_all_last.
Qed.

End settle.

(** Two dictionaries that the same files go through stay related key by
    key. *)
Lemma settle_all_related {F V W} (R : option V -> option W -> Prop)
    (key : F -> string) (o1 : F -> option V) (o2 : F -> option W)
    (files : list F) (m1 : gmap string V) (m2 : gmap string W) :
  (∀ f, R (o1 f) (o2 f)) ->
  (∀ k, R (m1 !! k) (m2 !! k)) ->
  ∀ k, R (Duration.settle_all key o1 files m1 !! k) (Duration.settle_all key o2 files m2 !! k).
Proof.
  intros Ho. revert m1 m2. induction files as [|f files IH]; intros m1 m2 Hm k; [apply Hm|].
  rewrite !settle_all_cons. apply IH. intros j.
  rewrite !lookup_settle. case_decide; [apply Ho|apply Hm].
Qed.

(** ** The loop over the files *)

Section files.
Import Duration.
Context (fromFile : string -> TextGrid).
Implicit Types (tg_file : string) (st : dicts).

Lemma scan_file_total (retain_stress : bool) tg_file :
  ∃ s, scan_file fromFile retain_stress tg_file = Ok s ∧ length s.1 = length s.2.
Proof. unfold scan_file. by apply scan_phns_total. Qed.

Lemma only_space_spec (text : list string) :
  only_space text = true ↔ text = ["<space>"%string].
Proof.
  unfold only_space. split.
  - destruct text as [|t [|t' text]]; simpl; try done.
    by intros ->%String.eqb_eq.
  - by intros ->.
Qed.

Lemma kept_spec (retain_stress : bool) tg_file :
  ∃ s, scan_file fromFile retain_stress tg_file = Ok s ∧
       length s.1 = length s.2 ∧
       kept fromFile retain_stress tg_file =
         if decide (s.1 = ["<space>"%string]) then None else Some s.
Proof.
  destruct (scan_file_total retain_stress tg_file) as (s & Hs & Hlen).
  exists s. split_and!; [done..|].
  unfold kept. rewrite Hs.
  destruct (only_space s.1) eqn:Hos; case_decide as Hd; try done.
  - by apply only_space_spec in Hos.
  - apply only_space_spec in Hd. congruence.
Qed.

(** One iteration, on each of the two dictionaries. *)
Lemma process_file_settle (retain_stress : bool) tg_file st :
  process_file fromFile retain_stress tg_file st =
    Ok (settle (file_name tg_file) (fst <$> kept fromFile retain_stress tg_file) st.1,
        settle (file_name tg_file) (snd <$> kept fromFile retain_stress tg_file) st.2).
Proof.
  unfold process_file, kept.
  destruct (scan_file_total retain_stress tg_file) as (s & -> & _). res_simpl.
  by destruct (only_space s.1).
Qed.

Lemma cal_loop_settle (retain_stress : bool) (files : list string) st :
  cal_loop fromFile retain_stress files st =
    Ok (settle_all file_name (fun f => fst <$> kept fromFile retain_stress f) files st.1,
        settle_all file_name (fun f => snd <$> kept fromFile retain_stress f) files st.2).
Proof.
  revert st. induction files as [|f files IH]; intros st; simpl.
  - by destruct st.
  - rewrite process_file_settle. res_simpl. by rewrite IH.
Qed.

(** Whatever the parser returns for the files, the loop of
    [cal_duration_by_tg] runs to its end. *)
Lemma cal_duration_by_tg_settle (files : list string) (retain_stress : bool) :
  cal_duration_by_tg fromFile files retain_stress =
    Ok (settle_all file_name (fun f => fst <$> kept fromFile retain_stress f) files ∅,
        settle_all file_name (fun f => snd <$> kept fromFile retain_stress f) files ∅).
Proof. apply cal_loop_settle. Qed.

(** Key by key, the two dictionaries hold lists of the same length, or
    both nothing. *)
Lemma cal_duration_by_tg_lengths (files : list string) (retain_stress : bool) :
  ∃ idx2text idx2duration,
    cal_duration_by_tg fromFile files retain_stress = Ok (idx2text, idx2duration) ∧
    ∀ k, length <$> idx2text !! k = length <$> idx2duration !! k.
Proof.
  rewrite cal_duration_by_tg_settle. do 2 eexists. split; [done|].
  apply (settle_all_related (fun x y => length <$> x = length <$> y)).
  - intros f. destruct (kept_spec retain_stress f) as (s & _ & Hlen & ->).
    case_decide; simpl; [done|]. by rewrite Hlen.
  - intros k. by rewrite !lookup_empty.
Qed.

End files.

(** ** Silences *)

Section claims_scan.
Import Duration.

(** The step on a silence phoneme, in general: a new space with the
    phoneme's rounded duration when the tokens are empty or end in
    another token, and otherwise no new token and the rounded duration
    added to the last duration. *)
Lemma silence_step (retain_stress : bool) (phn : Interval) (st : seqs) :
  is_silence (mark phn) = true ->
  length st.1 = length st.2 ->
  (last st.1 ≠ Some "<space>"%string ∧
   record_phn retain_stress phn st
     = Ok (st.1 ++ ["<space>"%string], st.2 ++ [phn_duration phn]))
  ∨ (last st.1 = Some "<space>"%string ∧
     ∃ durs d, st.2 = durs ++ [d] ∧
       record_phn retain_stress phn st
         = Ok (st.1, durs ++ [PyNum.add d (phn_duration phn)])).
Proof.
  intros Hm Hlen.
  destruct (decide (last st.1 = Some "<space>"%string)) as [Hl|Hl].
  - right. split; [done|].
    destruct st as [toks durs]; simpl in *.
    destruct toks as [|t toks _] using rev_ind; [done|].
    rewrite last_snoc in Hl. injection Hl as ->.
    destruct durs as [|d durs _] using rev_ind.
    { rewrite length_app in Hlen. simpl in Hlen. lia. }
    exists durs, d. split; [done|]. by apply record_phn_silence_merge.
  - left. split; [done|]. by apply record_phn_silence_fresh.
Qed.

(** Two runs of silence with a phoneme in between give two spaces. *)
Lemma silence_runs_stay_apart (retain_stress : bool) :
  ∃ tok durs,
    scan_phns retain_stress [] Samples.silence_vowel_silence ([], [])
      = Ok (["<space>"; tok; "<space>"]%string, durs) ∧
    tok ≠ "<space>"%string.
Proof. destruct retain_stress; do 2 eexists; (split; [vm_compute; reflexivity|done]). Qed.

(** The scan of three adjacent silences whose rounded durations are 0.10,
    0.20 and 0.05 holds one space token; its duration is the sum that
    the floating-point additions of the merge produce,
    0.35000000000000003, which is not the double 0.35. *)
Lemma silence_merge_sum_not_rounded (retain_stress : bool) :
  phn_duration <$> Samples.three_silences
    = [PyNum.PyFloat 0.1; PyNum.PyFloat 0.2; PyNum.PyFloat 0.05] ∧
  scan_phns retain_stress [] Samples.three_silences ([], [])
    = Ok (["<space>"%string], [PyNum.PyFloat 0.35000000000000003]) ∧
  PyNum.eqb (PyNum.PyFloat 0.35000000000000003) (PyNum.PyFloat 0.35) = false.
Proof. destruct retain_stress; (split_and!; vm_compute; reflexivity). Qed.

(** C1: the duration that [cal_duration_by_tg] returns for a space into
    which silences were merged is the running floating-point sum of
    line 150, which is not rounded again.  For a file that opens with
    silences of 0.10 s, 0.20 s and 0.05 s before the word "a", and for a
    file that closes with them after the word "an", the key of the file
    is kept and the duration of the space is 0.35000000000000003: it is
    not the double 0.35, and [round(., 2)] changes it. *)
Theorem merged_space_duration_not_rounded (retain_stress : bool) :
  phn_duration <$> tiers_1 Samples.three_silences_then_word
    = PyNum.PyFloat <$> [0.1; 0.2; 0.05; 0.1]%float ∧
  cal_duration_by_tg (fun _ => Samples.three_silences_then_word)
      ["spk1/utt.TextGrid"%string] retain_stress
    = Ok (<["utt"%string :=
             ["<space>"; if retain_stress then "AH0" else "AH"; "<space>"]%string]> ∅,
          <["utt"%string :=
             [PyNum.PyFloat 0.35000000000000003; PyNum.PyFloat 0.1; PyNum.PyInt 0]]> ∅) ∧
  phn_duration <$> tiers_1 Samples.word_then_three_silences
    = PyNum.PyFloat <$> [0.1; 0.1; 0.1; 0.2; 0.05]%float ∧
  cal_duration_by_tg (fun _ => Samples.word_then_three_silences)
      ["spk1/utt.TextGrid"%string] retain_stress
    = Ok (<["utt"%string :=
             [if retain_stress then "AH0" else "AH"; "N"; "<space>"]%string]> ∅,
          <["utt"%string :=
             [PyNum.PyFloat 0.1; PyNum.PyFloat 0.1; PyNum.PyFloat 0.35000000000000003]]> ∅) ∧
  PyNum.eqb (PyNum.PyFloat 0.35000000000000003) (PyNum.PyFloat 0.35) = false ∧
  PyNum.eqb (PyNum.PyFloat (PyNum.round2 0.35000000000000003))
            (PyNum.PyFloat 0.35000000000000003) = false.
Proof. destruct retain_stress; (split_and!; vm_compute; reflexivity). Qed.

(** C2: the token list and the duration list have the same length for
    every key of the output of [cal_duration_by_tg] (and the two
    dictionaries have the same keys), and at every point of the scan of
    a phoneme tier: before a phoneme, after it is recorded, and after the
    word-boundary space. *)
Theorem length_invariant :
  (∀ (fromFile : string -> TextGrid) (files : list string) (retain_stress : bool),
     ∃ idx2text idx2duration,
       cal_duration_by_tg fromFile files retain_stress = Ok (idx2text, idx2duration) ∧
       ∀ k, length <$> idx2text !! k = length <$> idx2duration !! k)
  ∧
  (∀ (retain_stress : bool) (wbd : list (float * bool))
     (scanned : list Interval) (phn : Interval),
     ∃ st st1,
       scan_phns retain_stress wbd scanned ([], []) = Ok st ∧
       length st.1 = length st.2 ∧
       record_phn retain_stress phn st = Ok st1 ∧
       length st1.1 = length st1.2 ∧
       scan_phns retain_stress wbd (scanned ++ [phn]) ([], [])
         = Ok (mark_boundary wbd phn st1) ∧
       length (mark_boundary wbd phn st1).1 = length (mark_boundary wbd phn st1).2).
Proof.
  split.
  - intros. apply cal_duration_by_tg_lengths.
  - intros rs wbd scanned phn.
    destruct (scan_phns_total rs wbd scanned ([], []) eq_refl) as (st & Hscan & Hlen).
    destruct (phn_step_total rs wbd phn st Hlen) as (st1 & Hrec & Hlen1 & Hstep & Hlen2).
    exists st, st1. split_and!; try done.
    rewrite scan_phns_app, Hscan. res_simpl. rewrite Hstep. by res_simpl.
Qed.

(** C3: when the rounded end time of a phoneme is a key of the
    word-boundary dictionary with value true, the step appends, to what
    recording the phoneme gave, a space with duration 0 as a new entry of
    both lists, whatever the last token is. *)
Theorem word_boundary_space (retain_stress : bool) (wbd : list (float * bool))
    (phn : Interval) (st st1 : seqs) :
  od_get PrimFloat.eqb (phn_boundary phn) wbd = Some true ->
  record_phn retain_stress phn st = Ok st1 ->
  phn_step retain_stress wbd phn st
    = Ok (st1.1 ++ ["<space>"%string], st1.2 ++ [PyNum.PyInt 0]) ∧
  PyNum.eqb (PyNum.PyInt 0) (PyNum.PyFloat 0.00) = true.
Proof.
  intros Hb Hrec. split; [|reflexivity].
  unfold phn_step. rewrite Hrec. res_simpl.
  unfold mark_boundary. by rewrite Hb.
Qed.

Lemma word_boundary_space_witness :
  let wbd := word_boundary_dict (tiers_0 Samples.word_then_pause) in
  let phn := mkInterval 0.2 0.3 "sp" in
  phn_step true wbd phn (["AH0"%string], [PyNum.PyFloat 0.2])
    = Ok (["AH0"; "<space>"; "<space>"]%string,
          [PyNum.PyFloat 0.2; PyNum.PyFloat 0.1; PyNum.PyInt 0]).
Proof.
  intros wbd phn.
  refine (proj1 (word_boundary_space true wbd phn (["AH0"%string], [PyNum.PyFloat 0.2])
            (["AH0"; "<space>"]%string, [PyNum.PyFloat 0.2; PyNum.PyFloat 0.1]) _ _)).
  - vm_compute. reflexivity.
  - vm_compute. reflexivity.
Defined.



(** The marks "spn" and "AE1", for both settings. *)
Lemma phn_token_examples :
  phn_token true "spn" = Ok "<unk>"%string ∧ phn_token false "spn" = Ok "<unk>"%string ∧
  phn_token true "AE1" = Ok "AE1"%string ∧ phn_token false "AE1" = Ok "AE"%string ∧
  phn_token false "spn1" = Ok "<unk>"%string.
Proof. by vm_compute. Qed.

End claims_scan.

(** ** Utterances that are a single pause *)

Section claims_files.
Import Duration.

(** C5: when the scan of a file ends with the token list ["<space>"],
    the file's key is in neither dictionary once its iteration is over;
    with any other token list the key holds the two lists.  The same is
    true of the output of [cal_duration_by_tg], for a file that no later
    file of the list shares its key with. *)
Theorem silence_only_discard (fromFile : string -> TextGrid) (retain_stress : bool)
    (tg_file : string) :
  ∃ s, scan_file fromFile retain_stress tg_file = Ok s ∧
    (∀ st, ∃ st',
       process_file fromFile retain_stress tg_file st = Ok st' ∧
       st'.1 !! file_name tg_file
         = (if decide (s.1 = ["<space>"%string]) then None else Some s.1) ∧
       st'.2 !! file_name tg_file
         = (if decide (s.1 = ["<space>"%string]) then None else Some s.2)) ∧
    (∀ before after,
       file_name tg_file ∉ file_name <$> after ->
       ∃ idx2text idx2duration,
         cal_duration_by_tg fromFile (before ++ tg_file :: after) retain_stress
           = Ok (idx2text, idx2duration) ∧
         idx2text !! file_name tg_file
           = (if decide (s.1 = ["<space>"%string]) then None else Some s.1) ∧
         idx2duration !! file_name tg_file
           = (if decide (s.1 = ["<space>"%string]) then None else Some s.2)).
Proof.
  destruct (kept_spec fromFile retain_stress tg_file) as (s & Hs & _ & Hkept).
  exists s. split_and!; [done| |].
  - intros st. rewrite process_file_settle. eexists. split; [done|]. simpl.
    rewrite !lookup_settle, !(decide_True (P := file_name tg_file = file_name tg_file)) by done.
    rewrite Hkept. by destruct (decide (s.1 = ["<space>"%string])).
  - intros before after Hlast. rewrite cal_duration_by_tg_settle.
    do 2 eexists. split; [done|].
    rewrite !(lookup_settle_all_last file_name) by done.
    rewrite Hkept. by destruct (decide (s.1 = ["<space>"%string])).
Qed.

Lemma silence_only_discard_witness :
  ∃ idx2text idx2duration,
    cal_duration_by_tg Samples.three_grids Samples.three_files true
      = Ok (idx2text, idx2duration) ∧
    idx2text !! "b"%string = None ∧ idx2duration !! "b"%string = None ∧
    idx2text !! "c"%string = Some ["AE1"; "T"; "<space>"]%string.
Proof.
  destruct (silence_only_discard Samples.three_grids true "spk1/b.TextGrid")
    as (sb & Hsb & _ & Hb).
  destruct (silence_only_discard Samples.three_grids true "spk2/c.TextGrid")
    as (sc & Hsc & _ & Hc).
  destruct (Hb ["spk1/a.TextGrid"%string] ["spk2/c.TextGrid"%string])
    as (t & d & Hrun & Ht & Hd).
  { vm_compute. intros H. inversion H as [|? ? ? H']; subst. inversion H'. }
  destruct (Hc ["spk1/a.TextGrid"; "spk1/b.TextGrid"]%string [])
    as (t' & d' & Hrun' & Ht' & _).
  { vm_compute. intros H. inversion H. }
  change (["spk1/a.TextGrid"%string] ++ "spk1/b.TextGrid"%string :: ["spk2/c.TextGrid"%string])
    with Samples.three_files in Hrun.
  change (["spk1/a.TextGrid"; "spk1/b.TextGrid"]%string ++ ["spk2/c.TextGrid"%string])
    with Samples.three_files in Hrun'.
  rewrite Hrun in Hrun'. injection Hrun' as <- <-.
  vm_compute in Hsb. injection Hsb as <-.
  vm_compute in Hsc. injection Hsc as <-.
  exists t, d. split; [exact Hrun|].
  split; [exact Ht|]. split; [exact Hd|]. exact Ht'.
Defined.

(** A token list of two spaces is not a single space: the utterance is
    kept. *)
Lemma two_spaces_kept :
  ∃ idx2text idx2duration,
    cal_duration_by_tg (fun _ => Samples.unaligned_word_grid) ["hm.TextGrid"%string] true
      = Ok (idx2text, idx2duration) ∧
    idx2text !! "hm"%string = Some ["<space>"; "<space>"]%string ∧
    idx2duration !! "hm"%string = Some [PyNum.PyFloat 0.4; PyNum.PyInt 0].
Proof.
  rewrite cal_duration_by_tg_settle. do 2 eexists.
  split; [reflexivity|]. split; vm_compute; reflexivity.
Qed.

End claims_files.

(** ** Slices and gathering *)

Lemma stride_sublist {A} (n skip : nat) (l : list A) :
  PyList.stride n skip l `sublist_of` l.
Proof.
  revert skip. induction l as [|x l IH]; intros skip; simpl.
  - constructor.
  - destruct skip; [apply sublist_skip|apply sublist_cons]; apply IH.
Qed.

(** Every element of the list is in one of the [n] slices. *)
Lemma elem_of_stride {A} (n : nat) (l : list A) (x : A) :
  0 < n -> x ∈ l -> ∃ i, i < n ∧ x ∈ PyList.stride n i l.
Proof.
  intros Hn. induction l as [|a l IH]; intros Hx; [by apply elem_of_nil in Hx|].
  apply elem_of_cons in Hx as [->|Hx].
  - exists 0. split; [done|]. simpl. apply elem_of_cons. by left.
  - destruct (IH Hx) as (i & Hi & Hin).
    destruct (decide (S i < n)) as [Hlt|Hge].
    + exists (S i). by split.
    + exists 0. split; [done|]. simpl. apply elem_of_cons. right.
      by replace (n - 1) with i by lia.
Qed.

Lemma res_map_Ok {A B} (f : A -> res B) (g : A -> B) (l : list A) :
  (∀ x, f x = Ok (g x)) -> res_map f l = Ok (g <$> l).
Proof.
  intros Hf. induction l as [|x l IH]; simpl; [done|].
  rewrite Hf, IH. by res_simpl.
Qed.

Section update_all.
Context {V : Type}.
Implicit Types (m acc : gmap string V) (ms : list (gmap string V)).

(** [acc.update(r)] for each [r] of a list, in order. *)
Lemma lookup_update_all_Some ms acc k v :
  foldl (fun acc r => r ∪ acc) acc ms !! k = Some v ->
  acc !! k = Some v ∨ ∃ r, r ∈ ms ∧ r !! k = Some v.
Proof.
  revert acc. induction ms as [|r ms IH]; intros acc; simpl; [by left|].
  intros [Hacc|(r' & Hr' & Hv)]%IH.
  - apply lookup_union_Some_raw in Hacc as [Hr|[_ Hacc]]; [|by left].
    right. exists r. split; [|done]. apply elem_of_cons. by left.
  - right. exists r'. split; [|done]. apply elem_of_cons. by right.
Qed.

Lemma lookup_update_all_is_Some ms acc k :
  (is_Some (acc !! k) ∨ ∃ r, r ∈ ms ∧ is_Some (r !! k)) ->
  is_Some (foldl (fun acc r => r ∪ acc) acc ms !! k).
Proof.
  revert acc. induction ms as [|r ms IH]; intros acc; simpl.
  - intros [H|(r & Hr & _)]; [done|]. by apply elem_of_nil in Hr.
  - intros [H|(r' & Hr' & Hv)]; apply IH.
    + left. apply lookup_union_is_Some. by right.
    + apply elem_of_cons in Hr' as [->|Hr'].
      * left. apply lookup_union_is_Some. by left.
      * right. eauto.
Qed.

End update_all.

Lemma gather_split (results : list Duration.dicts) (acc : Duration.dicts) :
  foldl (fun acc r => (r.1 ∪ acc.1, r.2 ∪ acc.2)) acc results
  = (foldl (fun acc r => r ∪ acc) acc.1 (fst <$> results),
     foldl (fun acc r => r ∪ acc) acc.2 (snd <$> results)).
Proof.
  revert acc. induction results as [|r results IH]; intros acc; simpl.
  - by destruct acc.
  - by rewrite IH.
Qed.

(** One dictionary: with distinct keys, updating with the dictionaries of
    the slices gives the dictionary of the whole list. *)
Lemma settle_all_slices {F V} (key : F -> string) (o : F -> option V)
    (files : list F) (n : nat) :
  NoDup (key <$> files) -> 0 < n ->
  foldl (fun acc r => r ∪ acc) ∅
    ((fun i => Duration.settle_all key o (PyList.slice_from_step i n files) ∅) <$> seq 0 n)
  = Duration.settle_all key o files ∅.
Proof.
  intros Hnd Hn.
  assert (Hslice : ∀ i, NoDup (key <$> PyList.slice_from_step i n files)).
  { intros i. eapply sublist_NoDup; [exact Hnd|].
    apply fmap_sublist, stride_sublist. }
  assert (Hfwd : ∀ k v,
    foldl (fun acc r => r ∪ acc) ∅
      ((fun i => Duration.settle_all key o (PyList.slice_from_step i n files) ∅) <$> seq 0 n)
      !! k = Some v ->
    Duration.settle_all key o files ∅ !! k = Some v).
  { intros k v [Hemp|(r & Hr & Hv)]%lookup_update_all_Some.
    { by rewrite lookup_empty in Hemp. }
    apply list_elem_of_fmap in Hr as (i & -> & _).
    apply lookup_settle_all_NoDup in Hv as (f & Hf & Hk & Hov); [|apply Hslice].
    apply lookup_settle_all_NoDup; [done|].
    exists f. split_and!; [|done..].
    eapply elem_of_sublist; [exact Hf|apply stride_sublist]. }
  apply map_eq. intros k. apply option_eq. intros v. split; [apply Hfwd|].
  intros Hv. pose proof Hv as Hv0.
  apply lookup_settle_all_NoDup in Hv as (f & Hf & Hk & Hov); [|done].
  destruct (elem_of_stride n files f Hn Hf) as (i & Hi & Hin).
  destruct (lookup_update_all_is_Some
    ((fun i => Duration.settle_all key o (PyList.slice_from_step i n files) ∅) <$> seq 0 n)
    ∅ k) as [v' Hv'].
  { right. exists (Duration.settle_all key o (PyList.slice_from_step i n files) ∅).
    split.
    - apply list_elem_of_fmap. exists i. split; [done|].
      apply elem_of_seq. lia.
    - exists v. apply lookup_settle_all_NoDup; [apply Hslice|]. by exists f. }
  rewrite Hv'. f_equal.
  apply Hfwd in Hv'. congruence.
Qed.

Section claims_main.
Import Duration.
Context (fromFile : string -> TextGrid).

(** What [main] gathers, when it does not raise. *)
Lemma main_gather_Ok (files : list string) (retain_stress : bool) (ncpu : nat) :
  files ≠ [] -> 0 < ncpu ->
  main_gather fromFile files retain_stress ncpu =
    Ok (gather ((fun i =>
          (settle_all file_name (fun f => fst <$> kept fromFile retain_stress f)
             (PyList.slice_from_step i ncpu files) ∅,
           settle_all file_name (fun f => snd <$> kept fromFile retain_stress f)
             (PyList.slice_from_step i ncpu files) ∅)) <$> seq 0 ncpu)).
Proof.
  intros Hfiles Hn. unfold main_gather.
  destruct files as [|f files]; [done|]. simpl length. simpl Nat.eqb.
  destruct ncpu as [|n]; [lia|]. simpl Nat.eqb.
  rewrite (res_map_Ok _ (fun chunk =>
    (settle_all file_name (fun f => fst <$> kept fromFile retain_stress f) chunk ∅,
     settle_all file_name (fun f => snd <$> kept fromFile retain_stress f) chunk ∅))).
  - res_simpl. f_equal. f_equal. by rewrite <- list_fmap_compose.
  - intros chunk. apply cal_duration_by_tg_settle.
Qed.

(** C8 (amended): for a non-empty list of files whose keys are pairwise
    distinct and at least one worker, gathering what [cal_duration_by_tg]
    returns on the slices [tg_file_list[i::ncpu]] gives the two
    dictionaries that [cal_duration_by_tg] returns on the whole list. *)
Theorem partition_correct (files : list string) (retain_stress : bool) (ncpu : nat) :
  NoDup (file_name <$> files) ->
  files ≠ [] ->
  0 < ncpu ->
  main_gather fromFile files retain_stress ncpu
    = cal_duration_by_tg fromFile files retain_stress.
Proof.
  intros Hnd Hfiles Hn.
  rewrite main_gather_Ok, cal_duration_by_tg_settle by done.
  unfold gather. rewrite gather_split. simpl.
  rewrite <- !list_fmap_compose. f_equal. f_equal.
  - apply (settle_all_slices file_name); done.
  - apply (settle_all_slices file_name); done.
Qed.

End claims_main.

Section claims_main_samples.
Import Duration.

Lemma partition_correct_witness :
  main_gather Samples.three_grids Samples.three_files true 2
    = cal_duration_by_tg Samples.three_grids Samples.three_files true.
Proof.
  apply partition_correct.
  - apply (bool_decide_unpack _). vm_compute. exact I.
  - discriminate.
  - lia.
Defined.

(** Two files with the same key, the second a single pause: gathered from
    two workers the key holds the first file's lists; in one pass over the
    list the second file pops the key. *)
Lemma partition_duplicate_keys :
  ∃ idx2text idx2duration idx2text' idx2duration',
    main_gather Samples.two_speakers Samples.two_speakers_files true 2
      = Ok (idx2text, idx2duration) ∧
    cal_duration_by_tg Samples.two_speakers Samples.two_speakers_files true
      = Ok (idx2text', idx2duration') ∧
    idx2text !! "utt"%string = Some ["AE1"; "T"; "<space>"]%string ∧
    idx2text' !! "utt"%string = None ∧
    main_gather Samples.two_speakers Samples.two_speakers_files true 2
      ≠ cal_duration_by_tg Samples.two_speakers Samples.two_speakers_files true.
Proof.
  rewrite main_gather_Ok by (discriminate || lia).
  rewrite cal_duration_by_tg_settle.
  do 4 eexists. split; [reflexivity|]. split; [reflexivity|].
  assert (H1 : (gather ((fun i =>
      (settle_all file_name (fun f => fst <$> kept Samples.two_speakers true f)
         (PyList.slice_from_step i 2 Samples.two_speakers_files) ∅,
       settle_all file_name (fun f => snd <$> kept Samples.two_speakers true f)
         (PyList.slice_from_step i 2 Samples.two_speakers_files) ∅)) <$> seq 0 2)).1
      !! "utt"%string = Some ["AE1"; "T"; "<space>"]%string).
  { vm_compute. reflexivity. }
  assert (H2 : settle_all file_name (fun f => fst <$> kept Samples.two_speakers true f)
      Samples.two_speakers_files ∅ !! "utt"%string = None).
  { vm_compute. reflexivity. }
  split; [exact H1|]. split; [exact H2|].
  intros Heq.
  pose proof (f_equal (fun r : res dicts =>
                match r with
                | Ok p => p.1 !! "utt"%string
                | Raise _ => None
                end) Heq) as Hutt.
  pose proof (eq_trans (eq_sym H1) (eq_trans Hutt H2)) as Habs.
  discriminate Habs.
Qed.

End claims_main_samples.

(** ** Insertion-ordered dictionaries with string keys *)

Section odict_string.
Context {V : Type}.
Implicit Types (d : list (string * V)) (k j : string) (v : V).

Lemma od_get_None d k : od_get String.eqb k d = None ↔ k ∉ od_keys d.
Proof.
  induction d as [|[k' v'] d IH]; simpl.
  - split; [intros _; apply not_elem_of_nil|done].
  - rewrite not_elem_of_cons. destruct (String.eqb_spec k' k) as [->|Hne].
    + split; [done|]. by intros [? _].
    + rewrite IH. split; [by split|by intros [_ ?]].
Qed.

Lemma od_get_elem_of_NoDup d k v :
  NoDup (od_keys d) -> (k, v) ∈ d -> od_get String.eqb k d = Some v.
Proof.
  induction d as [|[k' v'] d IH]; simpl; [by intros _ ?%elem_of_nil|].
  intros [Hk' Hnd]%NoDup_cons [[= -> ->]|Hin]%elem_of_cons.
  - by rewrite String.eqb_refl.
  - destruct (String.eqb_spec k' k) as [->|_]; [|by apply IH].
    exfalso. apply Hk'. by apply (list_elem_of_fmap_2 fst) in Hin.
Qed.

Lemma od_keys_set_in d k v : k ∈ od_keys d -> od_keys (od_set String.eqb k v d) = od_keys d.
Proof.
  induction d as [|[k' v'] d IH]; simpl; [by intros ?%elem_of_nil|].
  intros Hk. destruct (String.eqb_spec k' k) as [->|Hne]; simpl; [done|].
  apply elem_of_cons in Hk as [->|Hk]; [done|].
  f_equal. by apply IH.
Qed.

Lemma od_keys_set_notin d k v :
  k ∉ od_keys d -> od_keys (od_set String.eqb k v d) = od_keys d ++ [k].
Proof.
  induction d as [|[k' v'] d IH]; simpl; [done|].
  intros [Hne Hk]%not_elem_of_cons.
  destruct (String.eqb_spec k' k) as [->|_]; [done|]. simpl.
  f_equal. by apply IH.
Qed.

Lemma od_get_set d k v j :
  od_get String.eqb j (od_set String.eqb k v d)
  = if decide (k = j) then Some v else od_get String.eqb j d.
Proof.
  induction d as [|[k' v'] d IH]; simpl.
  - destruct (String.eqb_spec k j); by case_decide.
  - destruct (String.eqb_spec k' k) as [->|Hne]; simpl.
    + destruct (String.eqb_spec k j); by case_decide.
    + destruct (String.eqb_spec k' j) as [->|Hne'].
      * by rewrite decide_False by done.
      * apply IH.
Qed.

End odict_string.

(** Setting a key changes the keys the same way in two dictionaries with
    the same keys. *)
Lemma od_keys_set_congr {V W} (d : list (string * V)) (d' : list (string * W))
    (k : string) (v : V) (w : W) :
  od_keys d = od_keys d' ->
  od_keys (od_set String.eqb k v d) = od_keys (od_set String.eqb k w d').
Proof.
  intros Hk. destruct (decide (k ∈ od_keys d)) as [Hin|Hnin].
  - rewrite !od_keys_set_in; [done| |done]. by rewrite <- Hk.
  - rewrite !od_keys_set_notin; [by rewrite Hk| |done]. by rewrite <- Hk.
Qed.

(** The subset dictionaries of two dictionaries with the same keys have
    the same keys, in the same order. *)
Lemma subset_of_keys {V W} (subset_indices : list string)
    (idx2text : gmap string V) (idx2duration : gmap string W) :
  (∀ k, is_Some (idx2text !! k) ↔ is_Some (idx2duration !! k)) ->
  od_keys (Duration.subset_of subset_indices idx2text)
  = od_keys (Duration.subset_of subset_indices idx2duration).
Proof.
  intros Hdom. unfold Duration.subset_of.
  cut (∀ (d : list (string * V)) (d' : list (string * W)),
         od_keys d = od_keys d' ->
         od_keys (foldl (fun d index =>
                    match idx2text !! index with
                    | Some v => od_set String.eqb index v d
                    | None => d
                    end) d subset_indices)
         = od_keys (foldl (fun d index =>
                    match idx2duration !! index with
                    | Some v => od_set String.eqb index v d
                    | None => d
                    end) d' subset_indices)).
  { intros H. by apply H. }
  induction subset_indices as [|index rest IH]; intros d d' Hk; simpl; [done|].
  apply IH. specialize (Hdom index).
  destruct (idx2text !! index) as [v|], (idx2duration !! index) as [w|].
  - by apply od_keys_set_congr.
  - destruct Hdom as [Hdom _]. by destruct Hdom.
  - destruct Hdom as [_ Hdom]. by destruct Hdom.
  - done.
Qed.

(** ** The stable descending sort *)

Section sorted_reverse.
Context {A : Type} (key : A -> nat) (before : A -> A -> Prop).
Implicit Types (l : list A) (x y : A).

Lemma insert_desc_Permutation x l : Duration.insert_desc key x l ≡ₚ x :: l.
Proof.
  induction l as [|y l IH]; simpl; [done|].
  destruct (key x <? key y); [|done].
  rewrite IH. apply Permutation_swap.
Qed.

Lemma sorted_reverse_Permutation l : Duration.sorted_reverse key l ≡ₚ l.
Proof.
  induction l as [|x l IH]; simpl; [done|].
  rewrite insert_desc_Permutation. by rewrite IH.
Qed.

Lemma insert_desc_sorted x l :
  Forall (before x) l ->
  StronglySorted (fun x y => key y < key x ∨ (key x = key y ∧ before x y)) l ->
  StronglySorted (fun x y => key y < key x ∨ (key x = key y ∧ before x y)) (Duration.insert_desc key x l).
Proof.
  intros Hx Hl. induction l as [|y l IH]; simpl.
  - repeat constructor.
  - apply StronglySorted_cons in Hl as [Hy Hl].
    apply Forall_cons in Hx as [Hxy Hx].
    destruct (Nat.ltb_spec (key x) (key y)) as [Hlt|Hge].
    + apply StronglySorted_cons. split; [|by apply IH].
      rewrite insert_desc_Permutation. apply Forall_cons. split; [by left|done].
    + apply StronglySorted_cons. split; [|by apply StronglySorted_cons].
      apply Forall_cons. split.
      * destruct (decide (key y = key x)) as [Heq|Hne]; [right|left; lia]. by split.
      * rewrite Forall_forall in Hy, Hx |- *. intros z Hz.
        destruct (Hy z Hz) as [Hlt|[Heq _]].
        -- destruct (decide (key z = key x)) as [Heq|Hne]; [right|left; lia].
           split; [done|]. by apply Hx.
        -- destruct (decide (key z = key x)) as [Heq'|Hne]; [right|left; lia].
           split; [done|]. by apply Hx.
Qed.

(** On a list whose elements are in [before] order, the sort returns the
    list with larger keys first and, among equal keys, in [before]
    order. *)
Lemma sorted_reverse_sorted l :
  StronglySorted before l ->
  StronglySorted (fun x y => key y < key x ∨ (key x = key y ∧ before x y)) (Duration.sorted_reverse key l).
Proof.
  induction 1 as [|x l Hl IH Hx]; simpl; [constructor|].
  apply insert_desc_sorted; [|done].
  by rewrite sorted_reverse_Permutation.
Qed.

End sorted_reverse.

Lemma StronglySorted_impl {A} (R R' : A -> A -> Prop) (l : list A) :
  (∀ a b, R a b -> R' a b) -> StronglySorted R l -> StronglySorted R' l.
Proof.
  intros HR. induction 1 as [|x l Hl IH Hx]; constructor; [done|].
  eapply Forall_impl; [exact Hx|]. apply HR.
Qed.

Lemma StronglySorted_fmap_inv {A B} (f : A -> B) (R : B -> B -> Prop) (l : list A) :
  StronglySorted R (f <$> l) -> StronglySorted (fun a b => R (f a) (f b)) l.
Proof.
  induction l as [|x l IH]; [constructor|].
  csimpl. intros [Hx Hl]%StronglySorted_cons.
  constructor; [by apply IH|].
  apply Forall_forall. intros b Hb.
  eapply Forall_forall in Hx; [exact Hx|].
  by apply list_elem_of_fmap_2.
Qed.

Lemma StronglySorted_lookup {A} (R : A -> A -> Prop) (l : list A) (i j : nat) (a b : A) :
  StronglySorted R l -> i < j -> l !! i = Some a -> l !! j = Some b -> R a b.
Proof.
  intros Hl. revert i j. induction Hl as [|x l Hl IH Hx]; intros i j Hij Hi Hj; [done|].
  destruct j as [|j]; [lia|]. simpl in Hj.
  destruct i as [|i]; simpl in Hi.
  - injection Hi as ->. rewrite Forall_forall in Hx. apply Hx.
    by eapply list_elem_of_lookup_2.
  - apply (IH i j); [lia|done..].
Qed.

Lemma StronglySorted_sublist {A} (R : A -> A -> Prop) (l1 l2 : list A) :
  l1 `sublist_of` l2 -> StronglySorted R l2 -> StronglySorted R l1.
Proof.
  intros Hsub Hl. revert l1 Hsub.
  induction Hl as [|x l Hl IH Hx]; intros l1 Hsub.
  - apply sublist_nil_r in Hsub as ->. constructor.
  - apply sublist_cons_r in Hsub as [Hsub|(l1' & -> & Hsub)]; [by apply IH|].
    constructor; [by apply IH|].
    rewrite Forall_forall in Hx |- *. intros y Hy. apply Hx.
    by eapply elem_of_sublist.
Qed.

Lemma StronglySorted_strengthen {A} (R : A -> A -> Prop) (P : A -> Prop) (l : list A) :
  Forall P l -> StronglySorted R l ->
  StronglySorted (fun a b => P a ∧ P b ∧ R a b) l.
Proof.
  intros HP. induction 1 as [|x l Hl IH Hx]; [constructor|].
  apply Forall_cons in HP as [HPx HP].
  constructor; [by apply IH|].
  rewrite Forall_forall in HP, Hx |- *. intros y Hy. auto.
Qed.

(** ** The counter and the vocabulary *)

Section vocab.
Import Duration.
Implicit Types (l : list string) (x a b : string).

Lemma first_before_snoc l x a b : first_before l a b -> first_before (l ++ [x]) a b.
Proof.
  intros (l1 & l2 & -> & Hb). exists l1, (l2 ++ [x]). split; [|done].
  by rewrite <- app_assoc.
Qed.

Lemma first_before_new l a x : a ∈ l -> x ∉ l -> first_before (l ++ [x]) a x.
Proof.
  intros (l1 & l2 & ->)%list_elem_of_split Hx.
  exists l1, (l2 ++ [x]). split; [by rewrite <- app_assoc|].
  intros Hin. apply Hx. apply elem_of_app. by left.
Qed.

Lemma Counter_snoc l x :
  Counter (l ++ [x])
  = od_set String.eqb x
      (match od_get String.eqb x (Counter l) with Some n => n + 1 | None => 1 end)
      (Counter l).
Proof. unfold Counter. by rewrite foldl_snoc. Qed.

(** The counter holds, for each distinct element, its number of
    occurrences; its keys are in order of first occurrence. *)
Lemma Counter_spec l :
  (∀ x, od_get String.eqb x (Counter l)
        = if decide (x ∈ l) then Some (count_occ string_dec l x) else None)
  ∧ NoDup (od_keys (Counter l))
  ∧ StronglySorted (first_before l) (od_keys (Counter l)).
Proof.
  induction l as [|x l (Hget & Hnd & Hsort)] using rev_ind.
  - split_and!; [|constructor|constructor].
    intros x. rewrite decide_False; [done|apply not_elem_of_nil].
  - rewrite Counter_snoc.
    assert (Hkeys : x ∈ od_keys (Counter l) ↔ x ∈ l).
    { specialize (Hget x). case_decide as Hx.
      - split; [done|]. intros _.
        destruct (decide (x ∈ od_keys (Counter l))) as [|Hn]; [done|].
        apply od_get_None in Hn. congruence.
      - apply od_get_None in Hget. by split. }
    split_and!.
    + intros y. rewrite od_get_set. rewrite count_occ_app. simpl.
      destruct (decide (x = y)) as [<-|Hne].
      * rewrite (decide_True (P := x ∈ l ++ [x]))
          by (apply elem_of_app; right; apply list_elem_of_singleton; done).
        rewrite Hget. destruct (string_dec x x) as [_|?]; [|done].
        case_decide as Hx; [done|].
        f_equal. rewrite (proj1 (count_occ_not_In string_dec l x)); [done|].
        by rewrite <- list_elem_of_In.
      * rewrite Hget. destruct (string_dec x y) as [?|_]; [done|].
        rewrite Nat.add_0_r.
        destruct (decide (y ∈ l)) as [Hy|Hy].
        -- rewrite decide_True; [done|]. apply elem_of_app. by left.
        -- rewrite decide_False; [done|].
           rewrite elem_of_app, list_elem_of_singleton.
           intros [?|?]; [done|]. by apply Hne.
    + destruct (decide (x ∈ l)) as [Hx|Hx].
      * by rewrite od_keys_set_in by (by apply Hkeys).
      * rewrite od_keys_set_notin by (by rewrite Hkeys).
        apply NoDup_app. split_and!; [done| |apply NoDup_singleton].
        intros y Hy ->%list_elem_of_singleton. by apply Hx, Hkeys.
    + destruct (decide (x ∈ l)) as [Hx|Hx].
      * rewrite od_keys_set_in by (by apply Hkeys).
        eapply StronglySorted_impl; [|exact Hsort].
        intros a b. apply first_before_snoc.
      * rewrite od_keys_set_notin by (by rewrite Hkeys).
        apply StronglySorted_app. split_and!.
        -- intros a b Ha ->%list_elem_of_singleton.
           apply first_before_new; [|done].
           destruct (decide (a ∈ l)) as [|Hn]; [done|].
           specialize (Hget a). rewrite decide_False in Hget by done.
           apply od_get_None in Hget. done.
        -- eapply StronglySorted_impl; [|exact Hsort].
           intros a b. apply first_before_snoc.
        -- repeat constructor.
Qed.

Lemma Counter_entry l x n :
  (x, n) ∈ Counter l -> x ∈ l ∧ n = count_occ string_dec l x.
Proof.
  destruct (Counter_spec l) as (Hget & Hnd & _).
  intros Hin. specialize (Hget x).
  assert (Hx : od_get String.eqb x (Counter l) = Some n).
  { destruct (od_get String.eqb x (Counter l)) as [m|] eqn:Hm.
    - rewrite (od_get_elem_of_NoDup _ _ _ Hnd Hin) in Hm. by injection Hm as ->.
    - apply od_get_None in Hm. exfalso. apply Hm.
      unfold od_keys. by apply (list_elem_of_fmap_2 fst) in Hin. }
  rewrite Hx in Hget. case_decide; [|done]. by injection Hget as ->.
Qed.

Lemma Counter_keys l x : x ∈ od_keys (Counter l) ↔ x ∈ l.
Proof.
  destruct (Counter_spec l) as (Hget & _ & _). specialize (Hget x).
  case_decide as Hx.
  - split; [done|]. intros _.
    destruct (decide (x ∈ od_keys (Counter l))) as [|Hn]; [done|].
    apply od_get_None in Hn. congruence.
  - apply od_get_None in Hget. by split.
Qed.

End vocab.

Section build_vocab.
Import Duration.

Lemma existsb_eqb_elem_of (x : string) (l : list string) :
  existsb (String.eqb x) l = true ↔ x ∈ l.
Proof.
  induction l as [|y l IH]; simpl.
  - split; [done|by intros ?%elem_of_nil].
  - rewrite orb_true_iff, IH, elem_of_cons, String.eqb_eq. done.
Qed.

(** [l.remove(x)] on a list that holds [x] once. *)
Lemma remove_NoDup (x : string) (l : list string) :
  x ∈ l -> NoDup l ->
  ∃ l', PyList.remove x l = Ok l' ∧ l' `sublist_of` l ∧
        ∀ y, y ∈ l' ↔ y ∈ l ∧ y ≠ x.
Proof.
  induction l as [|y l IH]; [by intros ?%elem_of_nil|].
  intros Hx [Hy Hnd]%NoDup_cons. simpl.
  destruct (String.eqb_spec y x) as [->|Hne].
  - exists l. split_and!; [done|by apply sublist_cons|].
    intros z. rewrite elem_of_cons. split.
    + intros Hz. split; [by right|]. by intros ->.
    + by intros [[->|Hz] Hzx].
  - apply elem_of_cons in Hx as [->|Hx]; [done|].
    destruct (IH Hx Hnd) as (l' & -> & Hsub & Hl'). res_simpl.
    exists (y :: l'). split_and!; [done|by apply sublist_skip|].
    intros z. rewrite !elem_of_cons, Hl'. split.
    + intros [->|[Hz Hzx]]; [by split; [left|]|]. split; [by right|done].
    + intros [[->|Hz] Hzx]; [by left|by right].
Qed.

(** The vocabulary of a subset dictionary: the reserved symbols around
    the distinct tokens other than "<unk>", which are ordered by
    descending number of occurrences, and by first occurrence among
    tokens that occur equally often. *)
Lemma build_vocab_spec (subset_idx2text : list (string * list string)) :
  let phns := concat (od_values subset_idx2text) in
  let count := count_occ string_dec phns in
  ∃ ranked,
    build_vocab subset_idx2text
      = Ok ("<blank>"%string :: ranked ++ ["<unk>"; "<sos/eos>"]%string) ∧
    NoDup ranked ∧
    (∀ tok, tok ∈ ranked ↔ tok ∈ phns ∧ tok ≠ "<unk>"%string) ∧
    StronglySorted
      (fun a b => count b < count a ∨ (count a = count b ∧ first_before phns a b))
      ranked.
Proof.
  intros phns count. unfold build_vocab. fold phns.
  destruct (Counter_spec phns) as (_ & Hnd & Hsort).
  set (sorted := sorted_reverse snd (Counter phns)).
  assert (Hperm : sorted ≡ₚ Counter phns) by apply sorted_reverse_Permutation.
  assert (Hkeys : fst <$> sorted ≡ₚ od_keys (Counter phns)).
  { unfold od_keys. change (map fst (Counter phns)) with (fst <$> Counter phns).
    by rewrite Hperm. }
  assert (Hnd' : NoDup (fst <$> sorted)) by by rewrite Hkeys.
  assert (Hmem : ∀ tok, tok ∈ fst <$> sorted ↔ tok ∈ phns).
  { intros tok. rewrite Hkeys. apply Counter_keys. }
  assert (Hsorted : StronglySorted
            (fun a b => count b < count a ∨ (count a = count b ∧ first_before phns a b))
            (fst <$> sorted)).
  { apply (StronglySorted_fmap fst
             (fun p q => (p.2 = count p.1) ∧ (q.2 = count q.1) ∧
                (q.2 < p.2 ∨ (p.2 = q.2 ∧ first_before phns p.1 q.1)))).
    - intros [a n] [b m] (Hn & Hm & Hr). simpl in *. by subst.
    - apply (StronglySorted_strengthen _ (fun p => p.2 = count p.1)).
      + apply Forall_forall. intros [a n] Hin. simpl.
        rewrite Hperm in Hin. by apply Counter_entry in Hin as [_ ->].
      + apply (sorted_reverse_sorted snd (fun p q => first_before phns p.1 q.1)).
        by apply StronglySorted_fmap_inv. }
  change (map fst sorted) with (fst <$> sorted).
  destruct (existsb (String.eqb "<unk>") (fst <$> sorted)) eqn:Hunk.
  - apply existsb_eqb_elem_of in Hunk.
    destruct (remove_NoDup _ _ Hunk Hnd') as (ranked & -> & Hsub & Hranked).
    res_simpl. exists ranked. split_and!; [done| | |].
    + by eapply sublist_NoDup.
    + intros tok. by rewrite Hranked, Hmem.
    + by eapply StronglySorted_sublist.
  - res_simpl. exists (fst <$> sorted). split_and!; [done..| |done].
    intros tok. rewrite <- Hmem. split; [|by intros [? _]].
    intros Htok. split; [done|]. intros ->.
    apply existsb_eqb_elem_of in Htok. congruence.
Qed.

End build_vocab.

(** ** The subset dictionaries *)

Section subset_of.
Import Duration.
Context {V : Type}.

Lemma elem_of_od_set (d : list (string * V)) (k j : string) (v w : V) :
  (j, w) ∈ od_set String.eqb k v d -> (j, w) = (k, v) ∨ (j, w) ∈ d.
Proof.
  induction d as [|[k' v'] d IH]; simpl.
  - intros ->%list_elem_of_singleton. by left.
  - destruct (String.eqb_spec k' k) as [->|Hne].
    + intros [->|Hin]%elem_of_cons; [by left|]. right. apply elem_of_cons. by right.
    + intros [->|Hin]%elem_of_cons.
      * right. apply elem_of_cons. by left.
      * destruct (IH Hin) as [?|?]; [by left|]. right. apply elem_of_cons. by right.
Qed.

(** Every entry of a subset dictionary is an entry of the global one, for
    one of the subset's indices. *)
Lemma elem_of_subset_of (subset_indices : list string) (idx2data : gmap string V)
    (k : string) (v : V) :
  (k, v) ∈ subset_of subset_indices idx2data ->
  k ∈ subset_indices ∧ idx2data !! k = Some v.
Proof.
  unfold subset_of.
  cut (∀ d : list (string * V),
         (k, v) ∈ foldl (fun d index =>
                     match idx2data !! index with
                     | Some v => od_set String.eqb index v d
                     | None => d
                     end) d subset_indices ->
         (k, v) ∈ d ∨ (k ∈ subset_indices ∧ idx2data !! k = Some v)).
  { intros H Hin. destruct (H [] Hin) as [?%elem_of_nil|?]; done. }
  induction subset_indices as [|index rest IH]; intros d; simpl; [by left|].
  intros [Hin|[Hin Hk]]%IH.
  - destruct (idx2data !! index) as [w|] eqn:Hw; [|by left].
    apply elem_of_od_set in Hin as [[= -> ->]|Hin]; [|by left].
    right. split; [|done]. apply elem_of_cons. by left.
  - right. split; [|done]. apply elem_of_cons. by right.
Qed.

End subset_of.

Lemma elem_of_concat {A} (x : A) (ls : list (list A)) :
  x ∈ concat ls -> ∃ l, l ∈ ls ∧ x ∈ l.
Proof.
  induction ls as [|l ls IH]; simpl; [by intros ?%elem_of_nil|].
  intros [Hx|Hx]%elem_of_app.
  - exists l. split; [|done]. apply elem_of_cons. by left.
  - destruct (IH Hx) as (l' & Hl' & Hx'). exists l'. split; [|done].
    apply elem_of_cons. by right.
Qed.

Lemma elem_of_subset_phns (subset_indices : list string)
    (idx2text : gmap string (list string)) (tok : string) :
  tok ∈ concat (od_values (Duration.subset_of subset_indices idx2text)) ->
  ∃ index text, index ∈ subset_indices ∧ idx2text !! index = Some text ∧ tok ∈ text.
Proof.
  intros (text & Htext & Htok)%elem_of_concat.
  unfold od_values in Htext. change (map snd ?l) with (snd <$> l) in Htext.
  apply list_elem_of_fmap in Htext as ([index text'] & -> & Hin).
  apply elem_of_subset_of in Hin as [Hidx Hlook].
  by exists index, text'.
Qed.

(** ** The vocabulary of a subset *)

Section claims_vocab.
Import Duration.

Lemma drop_last_two {A} (x a b : A) (l : list A) :
  drop (length (x :: l ++ [a; b]) - 2) (x :: l ++ [a; b]) = [a; b].
Proof.
  change (x :: l ++ [a; b]) with ((x :: l) ++ [a; b]).
  rewrite length_app.
  replace (length (x :: l) + length [a; b] - 2) with (length (x :: l)) by (simpl; lia).
  apply drop_app_length.
Qed.

Lemma dump_subset_metadata_vocab (subset_indices : list string)
    (idx2text : gmap string (list string)) (idx2duration : gmap string (list PyNum.num))
    (vocab : list string) :
  build_vocab (subset_of subset_indices idx2text) = Ok vocab ->
  dump_subset_metadata subset_indices idx2text idx2duration
  = Ok {| idx2text_rows := subset_of subset_indices idx2text;
          idx2text_len_rows :=
            map (fun it => (it.1, length it.2)) (subset_of subset_indices idx2text);
          vocab_rows := vocab;
          idx2duration_rows := subset_of subset_indices idx2duration |}.
Proof. intros H. unfold dump_subset_metadata. rewrite H. reflexivity. Qed.

(** C6 (amended): the vocabulary of a subset starts with "<blank>" and
    ends with "<unk>", "<sos/eos>", whatever the token lists are; it has
    no duplicate entry when neither "<blank>" nor "<sos/eos>" is a token
    of the subset. *)
Theorem vocabulary_shape (subset_indices : list string)
    (idx2text : gmap string (list string)) (idx2duration : gmap string (list PyNum.num)) :
  ∃ md ranked,
    dump_subset_metadata subset_indices idx2text idx2duration = Ok md ∧
    vocab_rows md = "<blank>"%string :: ranked ++ ["<unk>"; "<sos/eos>"]%string ∧
    vocab_rows md !! 0 = Some "<blank>"%string ∧
    drop (length (vocab_rows md) - 2) (vocab_rows md) = ["<unk>"; "<sos/eos>"]%string ∧
    ((∀ index text,
        index ∈ subset_indices -> idx2text !! index = Some text ->
        ("<blank>"%string ∉ text) ∧ ("<sos/eos>"%string ∉ text)) ->
     NoDup (vocab_rows md)).
Proof.
  destruct (build_vocab_spec (subset_of subset_indices idx2text))
    as (ranked & Hvocab & Hnd & Hmem & _).
  eexists _, ranked. split; [by apply dump_subset_metadata_vocab|]. simpl.
  split_and!; [done..| |].
  - apply drop_last_two.
  - intros Hres.
    assert (Hno : ∀ tok, tok ∈ ranked ->
              tok ≠ "<blank>"%string ∧ tok ≠ "<unk>"%string ∧ tok ≠ "<sos/eos>"%string).
    { intros tok [Hin Hunk]%Hmem.
      apply elem_of_subset_phns in Hin as (index & text & Hidx & Hlook & Htok).
      destruct (Hres index text Hidx Hlook) as [Hb Hs].
      split_and!; [|done|]; by intros ->. }
    apply NoDup_cons. split.
    + rewrite elem_of_app. intros [Hin|Hin].
      * by destruct (Hno _ Hin) as (? & _).
      * apply elem_of_cons in Hin as [?|Hin]; [done|].
        by apply list_elem_of_singleton in Hin.
    + apply NoDup_app. split_and!; [done| |].
      * intros tok Hin Hin'. destruct (Hno _ Hin) as (_ & Hu & Hs).
        apply elem_of_cons in Hin' as [?|Hin']; [done|].
        by apply list_elem_of_singleton in Hin'.
      * apply NoDup_cons. split; [|apply NoDup_singleton].
        by intros ?%list_elem_of_singleton.
Qed.

Lemma vocabulary_shape_witness :
  ∃ md,
    dump_subset_metadata ["u1"; "u2"]%string Samples.subset_text Samples.subset_duration
      = Ok md ∧
    vocab_rows md = ["<blank>"; "a"; "b"; "c"; "d"; "<unk>"; "<sos/eos>"]%string ∧
    NoDup (vocab_rows md).
Proof.
  destruct (vocabulary_shape ["u1"; "u2"]%string Samples.subset_text Samples.subset_duration)
    as (md & ranked & Hmd & _ & _ & _ & Hnd).
  exists md. split; [exact Hmd|].
  assert (Hrows : vocab_rows md
                  = ["<blank>"; "a"; "b"; "c"; "d"; "<unk>"; "<sos/eos>"]%string).
  { vm_compute in Hmd. injection Hmd as <-. reflexivity. }
  split; [exact Hrows|].
  apply Hnd. intros index text Hidx Hlook.
  apply elem_of_cons in Hidx as [->|Hidx].
  - vm_compute in Hlook. injection Hlook as <-.
    split; apply (bool_decide_unpack _); vm_compute; exact I.
  - apply list_elem_of_singleton in Hidx as ->.
    vm_compute in Hlook. injection Hlook as <-.
    split; apply (bool_decide_unpack _); vm_compute; exact I.
Defined.

(** A phoneme tier with the mark "<blank>": the token "<blank>" is in the
    subset and the vocabulary holds "<blank>" twice. *)
Lemma vocabulary_duplicate_blank :
  ∃ idx2text idx2duration md,
    cal_duration_by_tg (fun _ => Samples.blank_grid) ["utt.TextGrid"%string] true
      = Ok (idx2text, idx2duration) ∧
    idx2text !! "utt"%string = Some ["<blank>"; "AH0"]%string ∧
    dump_subset_metadata ["utt"%string] idx2text idx2duration = Ok md ∧
    vocab_rows md = ["<blank>"; "<blank>"; "AH0"; "<unk>"; "<sos/eos>"]%string ∧
    ¬ NoDup (vocab_rows md).
Proof.
  rewrite cal_duration_by_tg_settle. do 3 eexists.
  split; [reflexivity|]. split; [vm_compute; reflexivity|].
  split; [vm_compute; reflexivity|]. simpl.
  split; [reflexivity|].
  intros [Hin _]%NoDup_cons. apply Hin, elem_of_cons. by left.
Qed.

(** C7: between "<blank>" and "<unk>" the vocabulary lists the distinct
    tokens of the subset other than "<unk>"; a token never has fewer
    occurrences in the concatenated token lists than a token after it,
    and of two tokens with the same number of occurrences the one that
    occurs first in the concatenated lists comes first. *)
Theorem vocabulary_ranking (subset_indices : list string)
    (idx2text : gmap string (list string)) (idx2duration : gmap string (list PyNum.num)) :
  let phns := concat (od_values (subset_of subset_indices idx2text)) in
  let count := count_occ string_dec phns in
  ∃ md ranked,
    dump_subset_metadata subset_indices idx2text idx2duration = Ok md ∧
    vocab_rows md = "<blank>"%string :: ranked ++ ["<unk>"; "<sos/eos>"]%string ∧
    NoDup ranked ∧
    (∀ tok, tok ∈ ranked ↔ tok ∈ phns ∧ tok ≠ "<unk>"%string) ∧
    (∀ i j a b,
       i < j -> ranked !! i = Some a -> ranked !! j = Some b ->
       count b ≤ count a ∧ (count a = count b -> first_before phns a b)).
Proof.
  intros phns count.
  destruct (build_vocab_spec (subset_of subset_indices idx2text))
    as (ranked & Hvocab & Hnd & Hmem & Hsorted).
  eexists _, ranked. split; [by apply dump_subset_metadata_vocab|]. simpl.
  split_and!; [done..|].
  intros i j a b Hij Ha Hb.
  destruct (StronglySorted_lookup _ _ i j a b Hsorted Hij Ha Hb) as [Hlt|[Heq Hfb]].
  - fold phns in Hlt. fold count in Hlt. split; [by apply Nat.lt_le_incl|].
    intros Heq. rewrite Heq in Hlt. by apply Nat.lt_irrefl in Hlt.
  - fold phns in Heq. fold count in Heq. split; [|done].
    rewrite Heq. apply Nat.le_refl.
Qed.

Lemma vocabulary_ranking_witness :
  first_before ["a"; "b"; "a"; "c"; "b"; "<unk>"; "d"; "c"]%string "a" "b" ∧
  count_occ string_dec ["a"; "b"; "a"; "c"; "b"; "<unk>"; "d"; "c"]%string "d"
    ≤ count_occ string_dec ["a"; "b"; "a"; "c"; "b"; "<unk>"; "d"; "c"]%string "c".
Proof.
  destruct (vocabulary_ranking ["u1"; "u2"]%string Samples.subset_text Samples.subset_duration)
    as (md & ranked & Hmd & Hrows & _ & _ & Hrank).
  assert (Hranked : ranked = ["a"; "b"; "c"; "d"]%string).
  { vm_compute in Hmd. injection Hmd as <-. simpl in Hrows.
    injection Hrows as Hrows.
    by apply (app_inv_tail _ ["a"; "b"; "c"; "d"]%string ranked) in Hrows. }
  subst ranked.
  assert (Hphns : concat (od_values (subset_of ["u1"; "u2"]%string Samples.subset_text))
                  = ["a"; "b"; "a"; "c"; "b"; "<unk>"; "d"; "c"]%string)
    by (vm_compute; reflexivity).
  rewrite Hphns in Hrank.
  split.
  - apply (Hrank 0 1 "a"%string "b"%string); [lia|reflexivity|reflexivity|].
    vm_compute. reflexivity.
  - apply (Hrank 2 3 "c"%string "d"%string); [lia|reflexivity|reflexivity].
Defined.

End claims_vocab.

(** ** The keys of the two dictionaries *)

Section claims_keys.
Import Duration.

Lemma lengths_is_Some {V W} (t : gmap string (list V)) (d : gmap string (list W)) :
  (∀ k, length <$> t !! k = length <$> d !! k) ->
  ∀ k, is_Some (t !! k) ↔ is_Some (d !! k).
Proof.
  intros H k. specialize (H k).
  destruct (t !! k), (d !! k); simpl in H; try done.
Qed.

Lemma is_Some_dom {V W} (t : gmap string V) (d : gmap string W) :
  (∀ k, is_Some (t !! k) ↔ is_Some (d !! k)) -> dom t =@{gset string} dom d.
Proof. intros H. apply set_eq. intros k. by rewrite !elem_of_dom. Qed.

(** Gathering keeps the two dictionaries aligned. *)
Lemma gather_lengths (results : list dicts) :
  Forall (fun r : dicts => ∀ k, length <$> r.1 !! k = length <$> r.2 !! k) results ->
  ∀ k, length <$> (gather results).1 !! k = length <$> (gather results).2 !! k.
Proof.
  unfold gather.
  cut (∀ acc : dicts,
         (∀ k, length <$> acc.1 !! k = length <$> acc.2 !! k) ->
         Forall (fun r : dicts => ∀ k, length <$> r.1 !! k = length <$> r.2 !! k) results ->
         ∀ k, length <$> (foldl (fun acc r => (r.1 ∪ acc.1, r.2 ∪ acc.2)) acc results).1 !! k
              = length <$> (foldl (fun acc r => (r.1 ∪ acc.1, r.2 ∪ acc.2)) acc results).2 !! k).
  { intros H. apply H. intros k. simpl. by rewrite !lookup_empty. }
  induction results as [|r results IH]; intros acc Hacc Hres; simpl; [done|].
  apply Forall_cons in Hres as [Hr Hres].
  apply IH; [|done]. intros k. simpl. rewrite !lookup_union.
  specialize (Hr k). specialize (Hacc k).
  destruct (r.1 !! k), (r.2 !! k), (acc.1 !! k), (acc.2 !! k); simpl in *; done.
Qed.

(** On two dictionaries with the same keys, [dump_subset_metadata]
    writes the same indices, in the same order, to [idx2text] and to
    [idx2duration]. *)
Lemma dump_subset_metadata_keys (subset_indices : list string)
    (idx2text : gmap string (list string)) (idx2duration : gmap string (list PyNum.num)) :
  (∀ k, is_Some (idx2text !! k) ↔ is_Some (idx2duration !! k)) ->
  ∃ md, dump_subset_metadata subset_indices idx2text idx2duration = Ok md ∧
        od_keys (idx2text_rows md) = od_keys (idx2duration_rows md).
Proof.
  intros Hkeys.
  destruct (build_vocab_spec (subset_of subset_indices idx2text)) as (ranked & Hvocab & _).
  eexists. split; [by apply dump_subset_metadata_vocab|]. simpl.
  by apply subset_of_keys.
Qed.

(** C10: the two dictionaries that [cal_duration_by_tg] returns have the
    same keys, and so have the two that [main] gathers from its workers;
    the subset dictionaries that [dump_subset_metadata] filters out of
    them, one by membership in [idx2text] and one by membership in
    [idx2duration], hold the same indices in the same order. *)
Theorem same_keys (fromFile : string -> TextGrid) (files : list string)
    (retain_stress : bool) :
  (∃ idx2text idx2duration,
     cal_duration_by_tg fromFile files retain_stress = Ok (idx2text, idx2duration) ∧
     dom idx2text =@{gset string} dom idx2duration ∧
     ∀ subset_indices, ∃ md,
       dump_subset_metadata subset_indices idx2text idx2duration = Ok md ∧
       od_keys (idx2text_rows md) = od_keys (idx2duration_rows md))
  ∧
  (∀ ncpu,
     match main_gather fromFile files retain_stress ncpu with
     | Ok (idx2text, idx2duration) =>
         dom idx2text =@{gset string} dom idx2duration ∧
         ∀ subset_indices, ∃ md,
           dump_subset_metadata subset_indices idx2text idx2duration = Ok md ∧
           od_keys (idx2text_rows md) = od_keys (idx2duration_rows md)
     | Raise _ => files = [] ∨ ncpu = 0
     end).
Proof.
  split.
  - destruct (cal_duration_by_tg_lengths fromFile files retain_stress)
      as (t & d & Hrun & Hlen).
    exists t, d. split; [done|].
    pose proof (lengths_is_Some t d Hlen) as Hkeys.
    split; [by apply is_Some_dom|].
    intros subset_indices. by apply dump_subset_metadata_keys.
  - intros ncpu.
    destruct (decide (files = [])) as [->|Hfiles]; [by left|].
    destruct (decide (ncpu = 0)) as [->|Hn].
    { unfold main_gather. destruct files; [done|]. simpl. by right. }
    rewrite main_gather_Ok by (done || lia).
    match goal with |- context [gather ?rs] => set (results := rs) end.
    assert (Hlen : ∀ k, length <$> (gather results).1 !! k
                        = length <$> (gather results).2 !! k).
    { apply gather_lengths. apply Forall_forall. intros r Hr.
      apply list_elem_of_fmap in Hr as (i & -> & _). simpl.
      destruct (cal_duration_by_tg_lengths fromFile
                  (PyList.slice_from_step i ncpu files) retain_stress)
        as (t & d & Hrun & Hlen).
      rewrite cal_duration_by_tg_settle in Hrun. by injection Hrun as <- <-. }
    destruct (gather results) as [T D]. simpl in Hlen.
    pose proof (lengths_is_Some T D Hlen) as Hkeys.
    split; [by apply is_Some_dom|].
    intros subset_indices. by apply dump_subset_metadata_keys.
Qed.

End claims_keys.

(** ** The tokenizer constructor *)

Section tokenizer.
Import Tokenizer.

Lemma elem_of_od_keys_set {V} (d : list (string * V)) (k j : string) (v : V) :
  j ∈ od_keys (od_set String.eqb k v d) ↔ j = k ∨ j ∈ od_keys d.
Proof.
  destruct (decide (k ∈ od_keys d)) as [Hin|Hnin].
  - rewrite od_keys_set_in by done. split; [by right|]. by intros [->|?].
  - rewrite od_keys_set_notin by done.
    rewrite elem_of_app, list_elem_of_singleton. split; intros [?|?]; auto.
Qed.

Lemma reversed_dict_keys (vocab : list (Z * string)) (tok : string) :
  tok ∈ od_keys (reversed_dict vocab) ↔ tok ∈ vocab.*2.
Proof.
  unfold reversed_dict.
  cut (∀ acc : list (string * Z),
         tok ∈ od_keys (foldl (fun acc it => od_set String.eqb it.2 it.1 acc) acc vocab)
         ↔ tok ∈ od_keys acc ∨ tok ∈ vocab.*2).
  { intros H. rewrite H. simpl. split; [|by right].
    by intros [?%elem_of_nil|?]. }
  induction vocab as [|[i t] vocab IH]; intros acc; simpl.
  - split; [by left|]. by intros [?|?%elem_of_nil].
  - rewrite IH, elem_of_od_keys_set, elem_of_cons. simpl.
    split; [intros [[?|?]|?]|intros [?|[?|?]]]; auto.
Qed.

Lemma getitem_Ok (d : list (string * Z)) (k : string) :
  k ∈ od_keys d -> ∃ v, getitem d k = Ok v.
Proof.
  intros Hk. unfold getitem.
  destruct (od_get String.eqb k d) as [v|] eqn:Hv; [by exists v|].
  by apply od_get_None in Hv.
Qed.

Lemma getitem_KeyError (d : list (string * Z)) (k : string) :
  k ∉ od_keys d -> getitem d k = Raise KeyError.
Proof. intros Hk%od_get_None. unfold getitem. by rewrite Hk. Qed.

(** With the reserved symbols in the vocabulary, every member variable
    is derived from it. *)
Lemma register_Ok (path : string) (vocab : list (Z * string)) :
  has_reserved vocab ->
  ∃ sos ign unk,
    getitem (reversed_dict vocab) "<sos/eos>" = Ok sos ∧
    getitem (reversed_dict vocab) "<blank>" = Ok ign ∧
    getitem (reversed_dict vocab) "<unk>" = Ok unk ∧
    register path vocab
      = Ok (mkTokenizer path vocab (reversed_dict vocab)
              (length (reversed_dict vocab)) sos ign unk).
Proof.
  intros (Hs & Hb & Hu). unfold register.
  destruct (getitem_Ok (reversed_dict vocab) "<sos/eos>") as [sos Hsos];
    [by apply reversed_dict_keys|].
  destruct (getitem_Ok (reversed_dict vocab) "<blank>") as [ign Hign];
    [by apply reversed_dict_keys|].
  destruct (getitem_Ok (reversed_dict vocab) "<unk>") as [unk Hunk];
    [by apply reversed_dict_keys|].
  exists sos, ign, unk. rewrite Hsos, Hign, Hunk. by res_simpl.
Qed.

(** Without one of them, the lookup raises [KeyError]. *)
Lemma register_KeyError (path : string) (vocab : list (Z * string)) :
  ¬ has_reserved vocab -> register path vocab = Raise KeyError.
Proof.
  intros Hno. unfold register.
  destruct (decide ("<sos/eos>"%string ∈ vocab.*2)) as [Hs|Hs].
  2: { rewrite (getitem_KeyError _ "<sos/eos>"); [reflexivity|].
       by rewrite reversed_dict_keys. }
  destruct (getitem_Ok (reversed_dict vocab) "<sos/eos>") as [sos ->];
    [by apply reversed_dict_keys|]. res_simpl.
  destruct (decide ("<blank>"%string ∈ vocab.*2)) as [Hb|Hb].
  2: { rewrite (getitem_KeyError _ "<blank>"); [reflexivity|].
       by rewrite reversed_dict_keys. }
  destruct (getitem_Ok (reversed_dict vocab) "<blank>") as [ign ->];
    [by apply reversed_dict_keys|]. res_simpl.
  rewrite (getitem_KeyError _ "<unk>"); [reflexivity|]. rewrite reversed_dict_keys.
  intros Hu. by apply Hno.
Qed.

Context (parse_path_args : string -> string) (path_exists : string -> bool)
        (load_idx2data_file : string -> list (Z * string)).

(** C9: the constructor reads the vocabulary once when it holds the
    three reserved symbols.  When the lookup of one of them fails, it
    reads the vocabulary again, once, from the re-resolved [token_vocab]
    path, and derives every member variable from that; when a reserved
    symbol is missing there too, [KeyError] reaches the caller. *)
Theorem init_retry (token_vocab : string) (copy_path : option string) (log : list event) :
  let cp := parse_path_args <$> copy_path in
  let first := first_path parse_path_args path_exists token_vocab cp in
  let again := parse_path_args token_vocab in
  let backup (self : t) :=
    match cp with
    | Some c => [SaveTxt (path_join c "token_vocab") (od_keys (token2idx self))]
    | None => []
    end in
  let run := init parse_path_args path_exists load_idx2data_file token_vocab copy_path log in
  (has_reserved (load_idx2data_file first) ->
   ∃ self, register first (load_idx2data_file first) = Ok self ∧
           run = (Ok self, log ++ [Load first] ++ backup self))
  ∧
  (¬ has_reserved (load_idx2data_file first) ->
   has_reserved (load_idx2data_file again) ->
   ∃ sos ign unk,
     let vocab := load_idx2data_file again in
     let self := mkTokenizer again vocab (reversed_dict vocab)
                   (length (reversed_dict vocab)) sos ign unk in
     getitem (reversed_dict vocab) "<sos/eos>" = Ok sos ∧
     getitem (reversed_dict vocab) "<blank>" = Ok ign ∧
     getitem (reversed_dict vocab) "<unk>" = Ok unk ∧
     run = (Ok self, log ++ [Load first; Load again] ++ backup self))
  ∧
  (¬ has_reserved (load_idx2data_file first) ->
   ¬ has_reserved (load_idx2data_file again) ->
   run = (Raise KeyError, log ++ [Load first; Load again])).
Proof.
  intros cp first again backup run. subst run backup. unfold init.
  fold cp. fold first. fold again. clearbody first again. clearbody cp.
  unfold load, emit, lift, try_except_KeyError, mbind, M_bind, mret, M_ret. simpl.
  split_and!.
  - intros Hres.
    destruct (register_Ok first _ Hres) as (sos & ign & unk & _ & _ & _ & Hreg).
    eexists. split; [exact Hreg|]. rewrite Hreg. simpl.
    destruct cp; simpl; [by rewrite <- app_assoc|done].
  - intros Hno Hres. rewrite (register_KeyError first _ Hno).
    destruct (register_Ok again _ Hres) as (sos & ign & unk & Hs & Hb & Hu & Hreg).
    exists sos, ign, unk. split_and!; [done..|].
    rewrite Hreg. simpl.
    destruct cp; simpl; by rewrite <- !app_assoc.
  - intros Hno Hno'. rewrite (register_KeyError first _ Hno).
    rewrite (register_KeyError again _ Hno'). by rewrite <- app_assoc.
Qed.

End tokenizer.

Lemma init_retry_witness :
  ∃ self,
    Tokenizer.init (fun p => p) Samples.exp_exists Samples.exp_load
      "data/vocab" (Some "exp"%string) []
    = (Ok self,
       [Tokenizer.Load "exp/token_vocab"; Tokenizer.Load "data/vocab";
        Tokenizer.SaveTxt "exp/token_vocab" ["<blank>"; "AH0"; "<unk>"; "<sos/eos>"]%string]) ∧
    Tokenizer.token_vocab self = "data/vocab"%string ∧
    Tokenizer.idx2token self = Samples.exp_load "data/vocab" ∧
    Tokenizer.sos_eos_idx self = 3%Z ∧
    Tokenizer.ignore_idx self = 0%Z ∧
    Tokenizer.unk_idx self = 2%Z.
Proof.
  destruct (init_retry (fun p => p) Samples.exp_exists Samples.exp_load
              "data/vocab" (Some "exp"%string) []) as (_ & Hretry & _).
  destruct Hretry as (sos & ign & unk & Hretry).
  - unfold Tokenizer.has_reserved. apply (bool_decide_unpack _). vm_compute. exact I.
  - unfold Tokenizer.has_reserved. apply (bool_decide_unpack _). vm_compute. exact I.
  - cbv zeta in Hretry. destruct Hretry as (Hs & Hb & Hu & Hrun).
    vm_compute in Hs. injection Hs as <-.
    vm_compute in Hb. injection Hb as <-.
    vm_compute in Hu. injection Hu as <-.
    eexists. split; [rewrite Hrun; vm_compute; reflexivity|].
    by vm_compute.
Defined.

(* ===================================================================== *)
(** * Part III: further properties of the code                            *)
(* ===================================================================== *)

(** ** What the scan keeps *)

Section scan_more.
Import Duration.
Implicit Types (st : seqs) (phn : Interval) (wbd : list (float * bool)).

Lemma removelast_snoc_prefix {A} (l : list A) (x y : A) :
  removelast (l ++ [x]) `prefix_of` (l ++ [y]).
Proof. rewrite removelast_last. by apply prefix_app_r. Qed.

Lemma removelast_prefix {A} (l : list A) : removelast l `prefix_of` l.
Proof.
  destruct l as [|x l _] using rev_ind; [done|].
  rewrite removelast_last. by apply prefix_app_r.
Qed.

(** Recording a phoneme leaves the tokens it finds, and every duration
    but the last, in place. *)
Lemma record_phn_prefix (retain_stress : bool) phn st st1 :
  length st.1 = length st.2 ->
  record_phn retain_stress phn st = Ok st1 ->
  st.1 `prefix_of` st1.1 ∧ removelast st.2 `prefix_of` removelast st1.2.
Proof.
  intros Hlen Hrec. destruct (is_silence (mark phn)) eqn:Hm.
  - destruct (silence_step retain_stress phn st Hm Hlen)
      as [[_ Heq]|(_ & durs & d & Hd & Heq)];
      rewrite Heq in Hrec; injection Hrec as <-; simpl.
    + split; [by apply prefix_app_r|].
      rewrite removelast_last. apply removelast_prefix.
    + split; [done|]. rewrite Hd, !removelast_last. done.
  - destruct (record_phn_speech retain_stress phn st Hm) as (tok & _ & Heq).
    rewrite Heq in Hrec. injection Hrec as <-. simpl.
    split; [by apply prefix_app_r|].
    rewrite removelast_last. apply removelast_prefix.
Qed.

Lemma mark_boundary_prefix wbd phn st :
  st.1 `prefix_of` (mark_boundary wbd phn st).1 ∧
  removelast st.2 `prefix_of` removelast (mark_boundary wbd phn st).2.
Proof.
  unfold mark_boundary. destruct (od_get _ _ _) as [[]|]; simpl; try done.
  split; [by apply prefix_app_r|].
  rewrite removelast_last. apply removelast_prefix.
Qed.

Lemma scan_phns_prefix (retain_stress : bool) wbd (phns : list Interval) st st' :
  length st.1 = length st.2 ->
  scan_phns retain_stress wbd phns st = Ok st' ->
  st.1 `prefix_of` st'.1 ∧ removelast st.2 `prefix_of` removelast st'.2.
Proof.
  revert st. induction phns as [|phn phns IH]; intros st Hlen; simpl.
  - by intros [= ->].
  - destruct (phn_step_total retain_stress wbd phn st Hlen)
      as (st1 & Hrec & Hlen1 & -> & Hlen2). res_simpl. intros Hscan.
    destruct (record_phn_prefix _ _ _ _ Hlen Hrec) as [Ht1 Hd1].
    destruct (mark_boundary_prefix wbd phn st1) as [Ht2 Hd2].
    destruct (IH _ Hlen2 Hscan) as [Ht3 Hd3].
    split; [by etrans; [|etrans]|by etrans; [|etrans]].
Qed.

(** X1: the scan only ever appends tokens, and only the last duration is
    still open: the tokens after any part of a phoneme tier are a prefix
    of the tokens after the whole tier, and so are the durations without
    their last entry. *)
Theorem scan_appends_only (retain_stress : bool) wbd (scanned rest : list Interval) :
  ∃ st st',
    scan_phns retain_stress wbd scanned ([], []) = Ok st ∧
    scan_phns retain_stress wbd (scanned ++ rest) ([], []) = Ok st' ∧
    st.1 `prefix_of` st'.1 ∧
    removelast st.2 `prefix_of` removelast st'.2.
Proof.
  destruct (scan_phns_total retain_stress wbd scanned ([], []) eq_refl) as (st & Hst & Hlen).
  destruct (scan_phns_total retain_stress wbd rest st Hlen) as (st' & Hst' & _).
  exists st, st'. rewrite scan_phns_app, Hst. res_simpl.
  split_and!; [done..| |]; by eapply scan_phns_prefix.
Qed.

(** A property of "<space>" and of every token of a non-silence phoneme
    is a property of every token of the scan. *)
Lemma scan_phns_Forall (P : string -> Prop) (retain_stress : bool) wbd
    (phns : list Interval) st st' :
  P "<space>"%string ->
  (∀ m tok, is_silence m = false -> phn_token retain_stress m = Ok tok -> P tok) ->
  length st.1 = length st.2 ->
  Forall P st.1 ->
  scan_phns retain_stress wbd phns st = Ok st' ->
  Forall P st'.1.
Proof.
  intros Hspace Htok. revert st.
  induction phns as [|phn phns IH]; intros st Hlen HP; simpl; [by intros [= <-]|].
  destruct (phn_step_total retain_stress wbd phn st Hlen)
    as (st1 & Hrec & Hlen1 & -> & Hlen2). res_simpl.
  apply IH; [done|].
  assert (HP1 : Forall P st1.1).
  { destruct (is_silence (mark phn)) eqn:Hm.
    - destruct (silence_step retain_stress phn st Hm Hlen)
        as [[_ Heq]|(_ & durs & d & Hd & Heq)];
        rewrite Heq in Hrec; injection Hrec as <-; simpl; [|done].
      apply Forall_app. split; [done|]. by apply Forall_singleton.
    - destruct (record_phn_speech retain_stress phn st Hm) as (tok & Htk & Heq).
      rewrite Heq in Hrec. injection Hrec as <-. simpl.
      apply Forall_app. split; [done|]. apply Forall_singleton. by eapply Htok. }
  unfold mark_boundary. destruct (od_get _ _ _) as [[]|]; simpl; try done.
  apply Forall_app. split; [done|]. by apply Forall_singleton.
Qed.

(** X2: no token of a scan is "spn"; with [retain_stress] set, no token
    is one of the silence marks "sp", "" and "sil" either. *)
Theorem tokens_never_spn_nor_silence wbd (phns : list Interval) :
  (∀ retain_stress : bool, ∃ st,
     scan_phns retain_stress wbd phns ([], []) = Ok st ∧
     Forall (fun tok => tok ≠ "spn"%string) st.1)
  ∧
  (∃ st,
     scan_phns true wbd phns ([], []) = Ok st ∧
     Forall (fun tok => is_silence tok = false) st.1).
Proof.
  split.
  - intros rs.
    destruct (scan_phns_total rs wbd phns ([], []) eq_refl) as (st & Hst & _).
    exists st. split; [done|].
    eapply (scan_phns_Forall _ rs wbd phns ([], [])); [done| |done|constructor|done].
    intros m tok Hm Htok.
    destruct (phn_token_Ok rs m Hm) as (c & _ & Heq). rewrite Heq in Htok.
    injection Htok as <-. cbv zeta.
    destruct (String.eqb_spec
      (if negb rs && PyStr.isdigit c then PyStr.drop_last m else m) "spn"); done.
  - destruct (scan_phns_total true wbd phns ([], []) eq_refl) as (st & Hst & _).
    exists st. split; [done|].
    eapply (scan_phns_Forall _ true wbd phns ([], [])); [done| |done|constructor|done].
    intros m tok Hm Htok. unfold phn_token in Htok. simpl in Htok.
    destruct (String.eqb m "spn"); simpl in Htok; injection Htok as <-; done.
Qed.

End scan_more.

(** With [retain_stress] unset, stripping can leave a silence mark or the
    empty string as a token. *)
Lemma stripped_token_examples :
  Duration.phn_token false "sp1" = Ok "sp"%string ∧
  Duration.phn_token false "7" = Ok ""%string.
Proof. by vm_compute. Qed.

Section scan_tiers.
Import Duration.
Implicit Types (st : seqs) (phn : Interval) (wbd : list (float * bool)).

Lemma mark_boundary_none wbd phn st :
  od_get PrimFloat.eqb (phn_boundary phn) wbd ≠ Some true ->
  mark_boundary wbd phn st = st.
Proof. intros H. unfold mark_boundary. by destruct (od_get _ _ _) as [[]|]. Qed.

(** X3: on a tier of non-silence phonemes none of which ends on a word
    boundary, the scan appends one token and one duration per phoneme, in
    order: the token of its mark and its rounded duration.  Nothing is
    merged, equal neighbours included. *)
Theorem speech_one_to_one (retain_stress : bool) wbd (phns : list Interval) st :
  Forall (fun phn => is_silence (mark phn) = false ∧
                     od_get PrimFloat.eqb (phn_boundary phn) wbd ≠ Some true) phns ->
  ∃ toks,
    Forall2 (fun phn tok => phn_token retain_stress (mark phn) = Ok tok) phns toks ∧
    scan_phns retain_stress wbd phns st = Ok (st.1 ++ toks, st.2 ++ (phn_duration <$> phns)).
Proof.
  revert st. induction phns as [|phn phns IH]; intros st Hall.
  - exists []. split; [constructor|]. simpl. rewrite !app_nil_r. by destruct st.
  - apply Forall_cons in Hall as [[Hm Hb] Hall].
    destruct (record_phn_speech retain_stress phn st Hm) as (tok & Htok & Hrec).
    destruct (IH (st.1 ++ [tok], st.2 ++ [phn_duration phn]) Hall) as (toks & Htoks & Hscan).
    exists (tok :: toks). split; [by constructor|].
    simpl. unfold phn_step. rewrite Hrec. res_simpl.
    rewrite mark_boundary_none by done. rewrite Hscan. simpl.
    by rewrite <- !app_assoc.
Qed.

Lemma speech_one_to_one_witness :
  scan_phns true [] [mkInterval 0 0.1 "N"; mkInterval 0.1 0.3 "N"] ([], [])
  = Ok (["N"; "N"]%string, [PyNum.PyFloat 0.1; PyNum.PyFloat 0.2]).
Proof.
  destruct (speech_one_to_one true []
              [mkInterval 0 0.1 "N"; mkInterval 0.1 0.3 "N"] ([], []))
    as (toks & Htoks & Hscan).
  { repeat constructor; done. }
  rewrite Hscan.
  inversion Htoks as [|? tok1 ? toks1 H1 Hrest]; subst.
  inversion Hrest as [|? tok2 ? toks2 H2 Hrest']; subst.
  inversion Hrest'; subst.
  vm_compute in H1. injection H1 as <-.
  vm_compute in H2. injection H2 as <-.
  vm_compute. reflexivity.
Defined.

(** A run of silences after a space, with no word boundary, only changes
    the duration of the space. *)
Lemma scan_silences_after_space (retain_stress : bool) wbd (phns : list Interval)
    (toks : list string) (durs : list PyNum.num) (d : PyNum.num) :
  Forall (fun phn => is_silence (mark phn) = true ∧
                     od_get PrimFloat.eqb (phn_boundary phn) wbd ≠ Some true) phns ->
  ∃ d', scan_phns retain_stress wbd phns (toks ++ ["<space>"%string], durs ++ [d])
        = Ok (toks ++ ["<space>"%string], durs ++ [d']).
Proof.
  revert d. induction phns as [|phn phns IH]; intros d Hall; simpl; [by exists d|].
  apply Forall_cons in Hall as [[Hm Hb] Hall].
  unfold phn_step. rewrite record_phn_silence_merge by done. res_simpl.
  rewrite mark_boundary_none by done. by apply IH.
Qed.

(** A non-empty tier of silences, with no word boundary, gives the single
    token "<space>". *)
Lemma scan_only_silences (retain_stress : bool) wbd (phns : list Interval) :
  phns ≠ [] ->
  Forall (fun phn => is_silence (mark phn) = true ∧
                     od_get PrimFloat.eqb (phn_boundary phn) wbd ≠ Some true) phns ->
  ∃ d, scan_phns retain_stress wbd phns ([], []) = Ok (["<space>"%string], [d]).
Proof.
  destruct phns as [|phn phns]; [done|]. intros _ Hall.
  apply Forall_cons in Hall as [[Hm Hb] Hall]. simpl.
  unfold phn_step. rewrite record_phn_silence_fresh by done. res_simpl.
  rewrite mark_boundary_none by done. simpl.
  by apply (scan_silences_after_space retain_stress wbd phns [] []).
Qed.

End scan_tiers.

(** ** The word-boundary dictionary *)

Section odict_values.
Context {K V : Type} (keq : K -> K -> bool).
Implicit Types (d : list (K * V)).

Lemma od_set_values (P : V -> Prop) d (k : K) (v : V) :
  P v -> Forall (fun kv => P kv.2) d -> Forall (fun kv => P kv.2) (od_set keq k v d).
Proof.
  intros Hv. induction 1 as [|[k' v'] d Hkv Hd IH]; simpl.
  - by repeat constructor.
  - destruct (keq k' k); constructor; auto.
Qed.

Lemma od_get_values (P : V -> Prop) d (k : K) (v : V) :
  Forall (fun kv => P kv.2) d -> od_get keq k d = Some v -> P v.
Proof.
  induction 1 as [|[k' v'] d Hkv Hd IH]; simpl; [done|].
  destruct (keq k' k); [by intros [= <-]|done].
Qed.

End odict_values.

(** When every word is a silence, no end time is a word boundary. *)
Lemma word_boundary_dict_silent (words : list Duration.Interval) (k : float) :
  Forall (fun word => Duration.is_silence (Duration.mark word) = true) words ->
  od_get PrimFloat.eqb k (Duration.word_boundary_dict words) ≠ Some true.
Proof.
  intros Hwords.
  assert (Hall : Forall (fun kv : float * bool => kv.2 = false)
                   (Duration.word_boundary_dict words)).
  { unfold Duration.word_boundary_dict.
    cut (∀ d : list (float * bool),
           Forall (fun kv => kv.2 = false) d ->
           Forall (fun kv : float * bool => kv.2 = false)
             (foldl (fun d word =>
                od_set PrimFloat.eqb (PyNum.round2 (Duration.maxTime word))
                  (negb (Duration.is_silence (Duration.mark word))) d) d words)).
    { intros H. apply H. constructor. }
    induction Hwords as [|word words Hw _ IH]; intros d Hd; simpl; [done|].
    apply IH. apply (od_set_values _ (fun v => v = false)); [|done]. by rewrite Hw. }
  intros Hget.
  by apply (od_get_values _ (fun v => v = false) _ _ _ Hall) in Hget.
Qed.

(** ** Which files leave an entry *)

Section files_more.
Import Duration.
Context (fromFile : string -> TextGrid).

Lemma cal_duration_by_tg_lookup_last (retain_stress : bool)
    (before after : list string) (tg_file : string) :
  file_name tg_file ∉ file_name <$> after ->
  ∃ idx2text idx2duration,
    cal_duration_by_tg fromFile (before ++ tg_file :: after) retain_stress
      = Ok (idx2text, idx2duration) ∧
    idx2text !! file_name tg_file = fst <$> kept fromFile retain_stress tg_file ∧
    idx2duration !! file_name tg_file = snd <$> kept fromFile retain_stress tg_file.
Proof.
  intros Hlast. rewrite cal_duration_by_tg_settle. do 2 eexists. split; [done|].
  by rewrite !(lookup_settle_all_last file_name).
Qed.

(** X4: a file whose word tier holds only silences and whose phoneme tier
    holds only silences, at least one, leaves no entry in either
    dictionary (when no later file of the list has its key). *)
Theorem silent_file_dropped (retain_stress : bool)
    (before after : list string) (tg_file : string) :
  tiers_1 (fromFile tg_file) ≠ [] ->
  Forall (fun phn => is_silence (mark phn) = true) (tiers_1 (fromFile tg_file)) ->
  Forall (fun word => is_silence (mark word) = true) (tiers_0 (fromFile tg_file)) ->
  file_name tg_file ∉ file_name <$> after ->
  ∃ idx2text idx2duration,
    cal_duration_by_tg fromFile (before ++ tg_file :: after) retain_stress
      = Ok (idx2text, idx2duration) ∧
    idx2text !! file_name tg_file = None ∧
    idx2duration !! file_name tg_file = None.
Proof.
  intros Hne Hphns Hwords Hlast.
  destruct (cal_duration_by_tg_lookup_last retain_stress before after tg_file Hlast)
    as (t & d & Hrun & Ht & Hd).
  exists t, d. split; [done|].
  assert (Hkept : kept fromFile retain_stress tg_file = None).
  { unfold kept, scan_file.
    destruct (scan_only_silences retain_stress
                (word_boundary_dict (tiers_0 (fromFile tg_file)))
                (tiers_1 (fromFile tg_file)) Hne) as [d0 ->]; [|done].
    eapply Forall_impl; [exact Hphns|]. intros phn Hm. split; [done|].
    by apply word_boundary_dict_silent. }
  by rewrite Ht, Hd, Hkept.
Qed.

(** X5: a file with a non-silence phoneme whose token is not "<space>"
    keeps its entry, and the token is in its token list (when no later
    file of the list has its key). *)
Theorem speech_file_kept (retain_stress : bool)
    (before after : list string) (tg_file : string) (phn : Interval) (tok : string) :
  phn ∈ tiers_1 (fromFile tg_file) ->
  is_silence (mark phn) = false ->
  phn_token retain_stress (mark phn) = Ok tok ->
  tok ≠ "<space>"%string ->
  file_name tg_file ∉ file_name <$> after ->
  ∃ idx2text idx2duration toks durs,
    cal_duration_by_tg fromFile (before ++ tg_file :: after) retain_stress
      = Ok (idx2text, idx2duration) ∧
    idx2text !! file_name tg_file = Some toks ∧
    idx2duration !! file_name tg_file = Some durs ∧
    tok ∈ toks.
Proof.
  intros Hphn Hm Htok Hns Hlast.
  destruct (cal_duration_by_tg_lookup_last retain_stress before after tg_file Hlast)
    as (t & d & Hrun & Ht & Hd).
  destruct (kept_spec fromFile retain_stress tg_file) as (s & Hs & _ & Hkept).
  assert (Hin : tok ∈ s.1).
  { unfold scan_file in Hs.
    apply list_elem_of_split in Hphn as (l1 & l2 & Hsplit). rewrite Hsplit in Hs.
    set (wbd := word_boundary_dict (tiers_0 (fromFile tg_file))) in *.
    destruct (scan_phns_total retain_stress wbd l1 ([], []) eq_refl) as (st1 & Hst1 & Hlen1).
    rewrite scan_phns_app, Hst1 in Hs. res_simpl. simpl in Hs.
    destruct (record_phn_speech retain_stress phn st1 Hm) as (tok' & Htok' & Hrec).
    rewrite Htok in Htok'. injection Htok' as <-.
    unfold phn_step in Hs. rewrite Hrec in Hs. res_simpl.
    set (st2 := mark_boundary wbd phn (st1.1 ++ [tok], st1.2 ++ [phn_duration phn])) in *.
    assert (Hlen2 : length st2.1 = length st2.2).
    { apply mark_boundary_length. simpl. rewrite !length_app. simpl. lia. }
    destruct (scan_phns_prefix _ _ _ _ _ Hlen2 Hs) as [Hpre _].
    destruct (mark_boundary_prefix wbd phn (st1.1 ++ [tok], st1.2 ++ [phn_duration phn]))
      as [Hpre' _]. fold st2 in Hpre'. simpl in Hpre'.
    destruct Hpre as [k1 ->]. destruct Hpre' as [k2 ->].
    rewrite !elem_of_app, list_elem_of_singleton. auto. }
  assert (Hkeep : kept fromFile retain_stress tg_file = Some s).
  { rewrite Hkept. case_decide as Heq; [|done].
    rewrite Heq in Hin. by apply list_elem_of_singleton in Hin. }
  exists t, d, s.1, s.2. by rewrite Ht, Hd, Hkeep.
Qed.

(** X6: a file with an empty phoneme tier is not dropped: its key holds
    two empty lists (when no later file of the list has its key). *)
Theorem empty_tier_kept (retain_stress : bool)
    (before after : list string) (tg_file : string) :
  tiers_1 (fromFile tg_file) = [] ->
  file_name tg_file ∉ file_name <$> after ->
  ∃ idx2text idx2duration,
    cal_duration_by_tg fromFile (before ++ tg_file :: after) retain_stress
      = Ok (idx2text, idx2duration) ∧
    idx2text !! file_name tg_file = Some [] ∧
    idx2duration !! file_name tg_file = Some [].
Proof.
  intros Hempty Hlast.
  destruct (cal_duration_by_tg_lookup_last retain_stress before after tg_file Hlast)
    as (t & d & Hrun & Ht & Hd).
  exists t, d. split; [done|].
  assert (Hkept : kept fromFile retain_stress tg_file = Some ([], [])).
  { unfold kept, scan_file. by rewrite Hempty. }
  by rewrite Ht, Hd, Hkept.
Qed.

Lemma settle_all_dom {F V} (key : F -> string) (o : F -> option V)
    (files : list F) (k : string) :
  is_Some (settle_all key o files ∅ !! k) -> k ∈ key <$> files.
Proof.
  intros Hk. destruct (decide (k ∈ key <$> files)) as [|Hn]; [done|].
  rewrite lookup_settle_all_notin, lookup_empty in Hk by done.
  by destruct Hk.
Qed.

(** X7: when [cal_duration_by_tg] returns two dictionaries, every key of
    either is the name, up to its first dot, of a file of the list. *)
Theorem keys_are_file_names (files : list string) (retain_stress : bool)
    (idx2text : gmap string (list string))
    (idx2duration : gmap string (list PyNum.num)) (k : string) :
  cal_duration_by_tg fromFile files retain_stress = Ok (idx2text, idx2duration) ->
  is_Some (idx2text !! k) ∨ is_Some (idx2duration !! k) ->
  ∃ tg_file, tg_file ∈ files ∧
             k = PyStr.split_dot_0 (PyStr.basename tg_file).
Proof.
  rewrite cal_duration_by_tg_settle. intros Hrun.
  injection Hrun as <- <-.
  intros [Hk|Hk]; apply settle_all_dom in Hk;
    apply list_elem_of_fmap in Hk as (f & -> & Hf); by exists f.
Qed.

(** X8: when the keys of the files are pairwise distinct, the two
    dictionaries do not depend on the order of the file list. *)
Theorem order_irrelevant (files files' : list string) (retain_stress : bool) :
  NoDup (file_name <$> files) ->
  files ≡ₚ files' ->
  cal_duration_by_tg fromFile files retain_stress
  = cal_duration_by_tg fromFile files' retain_stress.
Proof.
  intros Hnd Hperm. rewrite !cal_duration_by_tg_settle.
  assert (Hnd' : NoDup (file_name <$> files')) by by rewrite <- Hperm.
  f_equal. f_equal; apply map_eq; intros k; apply option_eq; intros v;
    rewrite !(lookup_settle_all_NoDup file_name) by done;
    by setoid_rewrite Hperm.
Qed.

End files_more.

Section files_more_samples.
Import Duration.

Lemma silent_file_dropped_witness :
  ∃ idx2text idx2duration,
    cal_duration_by_tg Samples.three_grids Samples.three_files false
      = Ok (idx2text, idx2duration) ∧
    idx2text !! "b"%string = None ∧ idx2duration !! "b"%string = None.
Proof.
  apply (silent_file_dropped Samples.three_grids false
           ["spk1/a.TextGrid"%string] ["spk2/c.TextGrid"%string] "spk1/b.TextGrid").
  - discriminate.
  - repeat constructor.
  - repeat constructor.
  - vm_compute. intros H. inversion H as [|? ? ? H']; subst. inversion H'.
Defined.

Lemma speech_file_kept_witness :
  ∃ idx2text idx2duration toks durs,
    cal_duration_by_tg Samples.three_grids Samples.three_files false
      = Ok (idx2text, idx2duration) ∧
    idx2text !! "c"%string = Some toks ∧
    idx2duration !! "c"%string = Some durs ∧
    "AE"%string ∈ toks.
Proof.
  apply (speech_file_kept Samples.three_grids false
           ["spk1/a.TextGrid"; "spk1/b.TextGrid"]%string [] "spk2/c.TextGrid"
           (mkInterval 0 0.1 "AE1") "AE").
  - vm_compute. apply elem_of_cons. by left.
  - reflexivity.
  - vm_compute. reflexivity.
  - discriminate.
  - vm_compute. intros H. inversion H.
Defined.

Lemma keys_are_file_names_witness :
  ∃ tg_file, tg_file ∈ Samples.three_files ∧
             "c"%string = PyStr.split_dot_0 (PyStr.basename tg_file).
Proof.
  eapply (keys_are_file_names Samples.three_grids Samples.three_files false _ _ "c").
  - vm_compute. reflexivity.
  - left. vm_compute. eexists. reflexivity.
Defined.

Lemma empty_tier_kept_witness :
  ∃ idx2text idx2duration,
    cal_duration_by_tg (fun _ => mkTextGrid [] []) ["empty.TextGrid"%string] true
      = Ok (idx2text, idx2duration) ∧
    idx2text !! "empty"%string = Some [] ∧
    idx2duration !! "empty"%string = Some [].
Proof.
  apply (empty_tier_kept (fun _ => mkTextGrid [] []) true [] [] "empty.TextGrid").
  - reflexivity.
  - vm_compute. intros H. inversion H.
Defined.

Lemma order_irrelevant_witness :
  cal_duration_by_tg Samples.three_grids Samples.three_files true
  = cal_duration_by_tg Samples.three_grids
      ["spk2/c.TextGrid"; "spk1/a.TextGrid"; "spk1/b.TextGrid"]%string true.
Proof.
  apply order_irrelevant.
  - apply (bool_decide_unpack _). vm_compute. exact I.
  - unfold Samples.three_files. symmetry.
    apply (Permutation_cons_append ["spk1/a.TextGrid"; "spk1/b.TextGrid"]%string).
Defined.

End files_more_samples.

(** ** The slices of the file list *)

Section slices.
Context {A : Type}.
Implicit Types (l : list A).

Lemma stride_lookup (n skip : nat) l (j : nat) :
  0 < n -> PyList.stride n skip l !! j = l !! (skip + j * n).
Proof.
  intros Hn. revert skip j. induction l as [|x l IH]; intros skip j; simpl.
  - by rewrite !lookup_nil.
  - destruct skip as [|skip].
    + destruct j as [|j]; simpl; [done|].
      rewrite IH. destruct n as [|n]; [lia|]. simpl.
      f_equal. lia.
    + rewrite IH. done.
Qed.

Lemma slices_cons (n : nat) (x : A) l :
  0 < n ->
  (fun i => PyList.slice_from_step i n (x :: l)) <$> seq 0 n
  = (x :: PyList.slice_from_step (n - 1) n l)
    :: ((fun i => PyList.slice_from_step i n l) <$> seq 0 (n - 1)).
Proof.
  intros Hn. destruct n as [|n]; [lia|]. simpl. f_equal.
  rewrite Nat.sub_0_r. rewrite <- fmap_S_seq, <- list_fmap_compose. done.
Qed.

(** X9: the slices [l[i::n]] for [i] in [range(n)] hold every element of
    [l] exactly once: put end to end they are a permutation of [l]. *)
Theorem slices_partition (n : nat) l :
  0 < n ->
  concat ((fun i => PyList.slice_from_step i n l) <$> seq 0 n) ≡ₚ l.
Proof.
  intros Hn. induction l as [|x l IH].
  - clear Hn. induction (seq 0 n) as [|i s IHs]; simpl; [done|]. exact IHs.
  - rewrite slices_cons by done. simpl. constructor.
    rewrite <- IH at 2.
    replace n with (S (n - 1)) at 4 by lia.
    rewrite seq_S, fmap_app, concat_app. simpl. rewrite app_nil_r.
    apply Permutation_app_comm.
Qed.

(** X10: the [j]-th element of the slice [l[i::n]] is the element of [l]
    at position [i + j * n], and the slice ends where [l] does. *)
Theorem slice_lookup (i n : nat) l (j : nat) :
  0 < n -> PyList.slice_from_step i n l !! j = l !! (i + j * n).
Proof. apply stride_lookup. Qed.

End slices.

Lemma slices_partition_witness :
  concat ((fun i => PyList.slice_from_step i 2 Samples.three_files) <$> seq 0 2)
  ≡ₚ Samples.three_files.
Proof. apply slices_partition. lia. Defined.

Lemma slice_lookup_witness :
  PyList.slice_from_step 1 3 [10; 11; 12; 13; 14; 15; 16; 17] !! 2 = Some 17.
Proof. rewrite slice_lookup by lia. reflexivity. Defined.

(** ** The rows of a subset *)

Section subset_rows.
Import Duration.

Lemma od_set_notin {V} (d : list (string * V)) (k : string) (v : V) :
  k ∉ od_keys d -> od_set String.eqb k v d = d ++ [(k, v)].
Proof.
  induction d as [|[k' v'] d IH]; simpl; [done|].
  intros [Hne Hk]%not_elem_of_cons.
  destruct (String.eqb_spec k' k) as [->|_]; [done|].
  f_equal. by apply IH.
Qed.

Lemma subset_of_omap {V} (subset_indices : list string) (idx2data : gmap string V) :
  NoDup subset_indices ->
  subset_of subset_indices idx2data
  = omap (fun index => (fun v => (index, v)) <$> idx2data !! index) subset_indices.
Proof.
  intros Hnd. unfold subset_of.
  cut (∀ d : list (string * V),
         (∀ index, index ∈ subset_indices -> index ∉ od_keys d) ->
         foldl (fun d index =>
                  match idx2data !! index with
                  | Some v => od_set String.eqb index v d
                  | None => d
                  end) d subset_indices
         = d ++ omap (fun index => (fun v => (index, v)) <$> idx2data !! index)
                  subset_indices).
  { intros H. rewrite H; [done|]. intros index _. apply not_elem_of_nil. }
  induction Hnd as [|index rest Hnotin Hnd IH]; intros d Hd; simpl.
  - by rewrite app_nil_r.
  - destruct (idx2data !! index) as [v|] eqn:Hv; simpl.
    + rewrite od_set_notin by (apply Hd, elem_of_cons; by left).
      rewrite IH; [by rewrite <- app_assoc|].
      intros j Hj. unfold od_keys. rewrite map_app. simpl.
      change (map fst d) with (od_keys d).
      rewrite elem_of_app, list_elem_of_singleton. intros [Hin| ->]; [|done].
      revert Hin. apply Hd, elem_of_cons. by right.
    + apply IH. intros j Hj. apply Hd, elem_of_cons. by right.
Qed.

(** X11: for a subset whose indices are pairwise distinct,
    [dump_subset_metadata] writes, in the order of the indices, one row
    for every index that has an entry in the global dictionary, with the
    entry's list, and no row for the others; the rows of [idx2text_len]
    hold the lengths of the token lists. *)
Theorem subset_rows (subset_indices : list string)
    (idx2text : gmap string (list string)) (idx2duration : gmap string (list PyNum.num)) :
  NoDup subset_indices ->
  ∃ md,
    dump_subset_metadata subset_indices idx2text idx2duration = Ok md ∧
    idx2text_rows md
      = omap (fun index => (fun v => (index, v)) <$> idx2text !! index) subset_indices ∧
    idx2duration_rows md
      = omap (fun index => (fun v => (index, v)) <$> idx2duration !! index) subset_indices ∧
    idx2text_len_rows md
      = omap (fun index => (fun v => (index, length v)) <$> idx2text !! index) subset_indices.
Proof.
  intros Hnd.
  destruct (build_vocab_spec (subset_of subset_indices idx2text)) as (ranked & Hvocab & _).
  eexists. split; [by apply dump_subset_metadata_vocab|]. simpl.
  rewrite !subset_of_omap by done. split_and!; [done..|].
  clear. induction subset_indices as [|index rest IH]; [done|].
  simpl omap. destruct (idx2text !! index) as [v|].
  - simpl fmap. cbn [map fst snd]. f_equal. exact IH.
  - exact IH.
Qed.

Lemma subset_rows_witness :
  ∃ md,
    dump_subset_metadata ["u2"; "u9"; "u1"]%string Samples.subset_text Samples.subset_duration
      = Ok md ∧
    idx2text_rows md
      = [("u2", ["b"; "<unk>"; "d"; "c"]); ("u1", ["a"; "b"; "a"; "c"])]%string ∧
    idx2text_len_rows md = [("u2"%string, 4); ("u1"%string, 4)].
Proof.
  destruct (subset_rows ["u2"; "u9"; "u1"]%string Samples.subset_text Samples.subset_duration)
    as (md & Hmd & Htext & _ & Hlen).
  { apply (bool_decide_unpack _). vm_compute. exact I. }
  exists md. split; [exact Hmd|].
  rewrite Htext, Hlen. split; vm_compute; reflexivity.
Defined.

(** Setting the same key keeps two dictionaries aligned. *)
Lemma od_set_aligned {V W} (R : V -> W -> Prop)
    (d : list (string * V)) (d' : list (string * W)) (k : string) (v : V) (w : W) :
  R v w ->
  Forall2 (fun a b => a.1 = b.1 ∧ R a.2 b.2) d d' ->
  Forall2 (fun a b => a.1 = b.1 ∧ R a.2 b.2)
    (od_set String.eqb k v d) (od_set String.eqb k w d').
Proof.
  intros Hvw. induction 1 as [|[k1 v1] [k2 w2] d d' [Hk HR] Hd IH]; simpl.
  - by repeat constructor.
  - simpl in Hk. subst k2.
    destruct (String.eqb k1 k); constructor; auto.
Qed.

Lemma subset_of_aligned {V W} (R : V -> W -> Prop) (subset_indices : list string)
    (m : gmap string V) (m' : gmap string W) :
  (∀ k, option_Forall2 R (m !! k) (m' !! k)) ->
  Forall2 (fun a b => a.1 = b.1 ∧ R a.2 b.2)
    (subset_of subset_indices m) (subset_of subset_indices m').
Proof.
  intros Hm. unfold subset_of.
  cut (∀ (d : list (string * V)) (d' : list (string * W)),
         Forall2 (fun a b => a.1 = b.1 ∧ R a.2 b.2) d d' ->
         Forall2 (fun a b => a.1 = b.1 ∧ R a.2 b.2)
           (foldl (fun d index =>
                     match m !! index with
                     | Some v => od_set String.eqb index v d
                     | None => d
                     end) d subset_indices)
           (foldl (fun d index =>
                     match m' !! index with
                     | Some v => od_set String.eqb index v d
                     | None => d
                     end) d' subset_indices)).
  { intros H. apply H. constructor. }
  induction subset_indices as [|index rest IH]; intros d d' Hd; simpl; [done|].
  apply IH. destruct (Hm index) as [v w Hvw|]; [|done].
  by apply od_set_aligned.
Qed.

(** X12: for the dictionaries that [cal_duration_by_tg] returns, the
    rows that [dump_subset_metadata] writes to [idx2text_len] and to
    [idx2duration] go index by index, and each length written is the
    number of durations written for the index. *)
Theorem text_len_counts_durations (fromFile : string -> TextGrid) (files : list string)
    (retain_stress : bool) (subset_indices : list string) :
  ∃ idx2text idx2duration md,
    cal_duration_by_tg fromFile files retain_stress = Ok (idx2text, idx2duration) ∧
    dump_subset_metadata subset_indices idx2text idx2duration = Ok md ∧
    Forall2 (fun len_row dur_row =>
               len_row.1 = dur_row.1 ∧ len_row.2 = length dur_row.2)
      (idx2text_len_rows md) (idx2duration_rows md).
Proof.
  destruct (cal_duration_by_tg_lengths fromFile files retain_stress)
    as (t & d & Hrun & Hlen).
  destruct (build_vocab_spec (subset_of subset_indices t)) as (ranked & Hvocab & _).
  exists t, d. eexists. split; [done|].
  split; [by apply dump_subset_metadata_vocab|]. simpl.
  assert (Hal : Forall2 (fun a b => a.1 = b.1 ∧ length a.2 = length b.2)
                  (subset_of subset_indices t) (subset_of subset_indices d)).
  { apply (subset_of_aligned (fun (a : list string) (b : list PyNum.num) =>
                                length a = length b)).
    intros k. specialize (Hlen k).
    destruct (t !! k), (d !! k); simpl in Hlen; try done; constructor.
    by injection Hlen. }
  clear Hvocab. induction Hal as [|a b l l' [Hk Hl] _ IH]; simpl; constructor; auto.
Qed.

(** X13: in the rows that [dump_subset_metadata] computes, every token
    of every [idx2text] row is an entry of the vocabulary, and every
    entry of the vocabulary is such a token or one of the three reserved
    symbols. *)
Theorem vocabulary_covers_tokens (subset_indices : list string)
    (idx2text : gmap string (list string)) (idx2duration : gmap string (list PyNum.num))
    (md : Metadata) :
  dump_subset_metadata subset_indices idx2text idx2duration = Ok md ->
  (∀ index text tok,
     (index, text) ∈ idx2text_rows md -> tok ∈ text -> tok ∈ vocab_rows md) ∧
  (∀ tok, tok ∈ vocab_rows md ->
     tok ∈ ["<blank>"; "<unk>"; "<sos/eos>"]%string ∨
     ∃ index text, (index, text) ∈ idx2text_rows md ∧ tok ∈ text).
Proof.
  intros Hmd.
  destruct (build_vocab_spec (subset_of subset_indices idx2text))
    as (ranked & Hvocab & _ & Hmem & _).
  rewrite (dump_subset_metadata_vocab _ _ idx2duration _ Hvocab) in Hmd.
  injection Hmd as <-. simpl. split.
  - intros index text tok Hrow Htok.
    destruct (decide (tok = "<unk>"%string)) as [->|Hne].
    { apply elem_of_cons. right. apply elem_of_app. right.
      apply elem_of_cons. by left. }
    apply elem_of_cons. right. apply elem_of_app. left. apply Hmem.
    split; [|done].
    apply (list_elem_of_fmap_2 snd) in Hrow. simpl in Hrow.
    clear -Hrow Htok. unfold od_values.
    change (map snd ?l) with (snd <$> l).
    induction (snd <$> subset_of subset_indices idx2text) as [|l ls IH]; simpl.
    + by apply elem_of_nil in Hrow.
    + apply elem_of_app. apply elem_of_cons in Hrow as [<-|Hrow]; auto.
  - intros tok [->|[Hin|Hin]%elem_of_app]%elem_of_cons.
    + left. apply elem_of_cons. by left.
    + right. apply Hmem in Hin as [Hin _].
      apply elem_of_concat in Hin as (text & Htext & Htok).
      unfold od_values in Htext. change (map snd ?l) with (snd <$> l) in Htext.
      apply list_elem_of_fmap in Htext as ([index text'] & -> & Hrow).
      by exists index, text'.
    + left. apply elem_of_cons. by right.
Qed.

Lemma vocabulary_covers_tokens_witness :
  ∃ md,
    dump_subset_metadata ["u2"; "u9"; "u1"]%string Samples.subset_text Samples.subset_duration
      = Ok md ∧
    "d"%string ∈ vocab_rows md.
Proof.
  destruct (dump_subset_metadata ["u2"; "u9"; "u1"]%string
              Samples.subset_text Samples.subset_duration) as [md|e] eqn:Hmd.
  - exists md. split; [reflexivity|].
    destruct (vocabulary_covers_tokens _ _ _ md Hmd) as [Hcover _].
    apply (Hcover "u2"%string ["b"; "<unk>"; "d"; "c"]%string).
    + vm_compute in Hmd. injection Hmd as <-. simpl.
      apply elem_of_cons. by left.
    + apply elem_of_cons. right. apply elem_of_cons. right.
      apply elem_of_cons. by left.
  - vm_compute in Hmd. discriminate Hmd.
Defined.

End subset_rows.

(** ** The dictionaries of the tokenizer *)

Section tokenizer_dicts.
Import Tokenizer.
Implicit Types (vocab : list (Z * string)) (tok : string) (idx : Z).

Lemma od_get_Z_elem_of (d : list (Z * string)) idx tok :
  od_get Z.eqb idx d = Some tok -> (idx, tok) ∈ d.
Proof.
  induction d as [|[i t] d IH]; simpl; [done|].
  destruct (Z.eqb_spec i idx) as [->|Hne].
  - intros [= ->]. apply elem_of_cons. by left.
  - intros H. apply elem_of_cons. right. by apply IH.
Qed.

Lemma od_get_Z_NoDup (d : list (Z * string)) idx tok :
  NoDup d.*1 -> (idx, tok) ∈ d -> od_get Z.eqb idx d = Some tok.
Proof.
  induction d as [|[i t] d IH]; simpl; [by intros _ ?%elem_of_nil|].
  intros [Hi Hnd]%NoDup_cons [[= -> ->]|Hin]%elem_of_cons.
  - by rewrite Z.eqb_refl.
  - destruct (Z.eqb_spec i idx) as [->|_]; [|by apply IH].
    exfalso. apply Hi. by apply (list_elem_of_fmap_2 fst) in Hin.
Qed.

Lemma od_get_Z_None (d : list (Z * string)) idx :
  od_get Z.eqb idx d = None ↔ idx ∉ d.*1.
Proof.
  induction d as [|[i t] d IH]; simpl.
  - split; [intros _; apply not_elem_of_nil|done].
  - rewrite not_elem_of_cons. destruct (Z.eqb_spec i idx) as [->|Hne].
    + split; [done|]. by intros [? _].
    + rewrite IH. split; [by split|by intros [_ ?]].
Qed.

Lemma reversed_dict_snoc vocab idx tok :
  reversed_dict (vocab ++ [(idx, tok)]) = od_set String.eqb tok idx (reversed_dict vocab).
Proof. unfold reversed_dict. by rewrite foldl_snoc. Qed.

(** An index found for a token comes from an entry of the vocabulary. *)
Lemma reversed_dict_get_elem_of vocab tok idx :
  od_get String.eqb tok (reversed_dict vocab) = Some idx -> (idx, tok) ∈ vocab.
Proof.
  induction vocab as [|[i t] vocab IH] using rev_ind; [done|].
  rewrite reversed_dict_snoc, od_get_set. simpl. case_decide as Heq.
  - intros [= ->]. subst t. apply elem_of_app. right. by apply list_elem_of_singleton.
  - intros H. apply elem_of_app. left. by apply IH.
Qed.

(** The last entry with a token decides the token's index. *)
Lemma reversed_dict_get_last (before after : list (Z * string)) idx tok :
  tok ∉ after.*2 ->
  od_get String.eqb tok (reversed_dict (before ++ (idx, tok) :: after)) = Some idx.
Proof.
  induction after as [|[i t] after IH] using rev_ind; intros Hnot.
  - rewrite reversed_dict_snoc, od_get_set. by rewrite decide_True.
  - rewrite fmap_app, not_elem_of_app in Hnot. destruct Hnot as [Hnot Ht].
    simpl in Ht. rewrite list_elem_of_singleton in Ht.
    rewrite app_comm_cons, app_assoc, reversed_dict_snoc, od_get_set.
    rewrite decide_False by (by intros ->). simpl. by apply IH.
Qed.

Lemma reversed_dict_NoDup vocab : NoDup (od_keys (reversed_dict vocab)).
Proof.
  induction vocab as [|[i t] vocab IH] using rev_ind; [constructor|].
  rewrite reversed_dict_snoc.
  destruct (decide (t ∈ od_keys (reversed_dict vocab))) as [Hin|Hnin].
  - by rewrite od_keys_set_in.
  - rewrite od_keys_set_notin by done. apply NoDup_app. split_and!; [done| |].
    + by intros x Hx ->%list_elem_of_singleton.
    + apply NoDup_singleton.
Qed.

Lemma length_od_keys {K V} (d : list (K * V)) : length (od_keys d) = length d.
Proof. unfold od_keys. apply length_map. Qed.

(** The number of keys of [token2idx] is the number of distinct tokens. *)
Lemma reversed_dict_size vocab :
  length (reversed_dict vocab) = length (remove_dups vocab.*2).
Proof.
  rewrite <- length_od_keys. apply Permutation_length, NoDup_Permutation.
  - apply reversed_dict_NoDup.
  - apply NoDup_remove_dups.
  - intros tok. by rewrite reversed_dict_keys, elem_of_remove_dups.
Qed.

Lemma register_inv (path : string) vocab (self : t) :
  register path vocab = Ok self ->
  has_reserved vocab ∧
  token_vocab self = path ∧ idx2token self = vocab ∧
  token2idx self = reversed_dict vocab ∧
  vocab_size self = length (reversed_dict vocab) ∧
  getitem (reversed_dict vocab) "<sos/eos>" = Ok (sos_eos_idx self) ∧
  getitem (reversed_dict vocab) "<blank>" = Ok (ignore_idx self) ∧
  getitem (reversed_dict vocab) "<unk>" = Ok (unk_idx self).
Proof.
  intros Hreg.
  assert (Hres : has_reserved vocab).
  { unfold has_reserved.
    destruct (decide ("<sos/eos>"%string ∈ vocab.*2 ∧ "<blank>"%string ∈ vocab.*2
                      ∧ "<unk>"%string ∈ vocab.*2)) as [|Hno]; [done|].
    rewrite (register_KeyError path vocab Hno) in Hreg. discriminate. }
  split; [done|].
  destruct (register_Ok path vocab Hres) as (sos & ign & unk & Hs & Hb & Hu & Heq).
  rewrite Heq in Hreg. injection Hreg as <-. simpl. by split_and!.
Qed.

Lemma register_Raise (path : string) vocab (e : exn) :
  register path vocab = Raise e -> e = KeyError ∧ ¬ has_reserved vocab.
Proof.
  intros Hreg.
  destruct (decide ("<sos/eos>"%string ∈ vocab.*2 ∧ "<blank>"%string ∈ vocab.*2
                    ∧ "<unk>"%string ∈ vocab.*2)) as [Hres|Hno].
  - destruct (register_Ok path vocab Hres) as (sos & ign & unk & _ & _ & _ & Heq).
    rewrite Heq in Hreg. discriminate.
  - rewrite (register_KeyError path vocab Hno) in Hreg. by injection Hreg as <-.
Qed.

(** With pairwise distinct indices, the index found for a token holds the
    token. *)
Lemma getitem_decodes vocab tok idx :
  NoDup vocab.*1 ->
  getitem (reversed_dict vocab) tok = Ok idx ->
  getitem_idx vocab idx = Ok tok.
Proof.
  intros Hnd Hget. unfold getitem in Hget.
  destruct (od_get String.eqb tok (reversed_dict vocab)) as [i|] eqn:Hi; [|done].
  injection Hget as ->. apply reversed_dict_get_elem_of in Hi.
  unfold getitem_idx. by rewrite (od_get_Z_NoDup _ _ _ Hnd Hi).
Qed.

End tokenizer_dicts.

(** ** What the constructor leaves behind *)

Section tokenizer_init.
Import Tokenizer.
Context (parse_path_args : string -> string) (path_exists : string -> bool)
        (load_idx2data_file : string -> list (Z * string)).

(** The three ways the constructor can end. *)
Lemma init_outcome (token_vocab : string) (copy_path : option string) (log : list event) :
  let cp := parse_path_args <$> copy_path in
  let first := first_path parse_path_args path_exists token_vocab cp in
  let again := parse_path_args token_vocab in
  let backup (self : t) :=
    match cp with
    | Some c => [SaveTxt (path_join c "token_vocab") (od_keys (token2idx self))]
    | None => []
    end in
  let run := init parse_path_args path_exists load_idx2data_file token_vocab copy_path log in
  (∃ self, register first (load_idx2data_file first) = Ok self ∧
           run = (Ok self, log ++ [Load first] ++ backup self))
  ∨ (∃ self, register again (load_idx2data_file again) = Ok self ∧
             run = (Ok self, log ++ [Load first; Load again] ++ backup self))
  ∨ run = (Raise KeyError, log ++ [Load first; Load again]).
Proof.
  intros cp first again backup run. subst run backup. unfold init.
  fold cp. fold first. fold again. clearbody first again. clearbody cp.
  unfold load, emit, lift, try_except_KeyError, mbind, M_bind, mret, M_ret. simpl.
  destruct (register first (load_idx2data_file first)) as [self|e] eqn:Hfirst.
  - left. exists self. split; [done|]. simpl.
    destruct cp; simpl; [by rewrite <- app_assoc|done].
  - right. apply register_Raise in Hfirst as [-> _].
    destruct (register again (load_idx2data_file again)) as [self|e] eqn:Hagain.
    + left. exists self. split; [done|]. simpl.
      destruct cp; simpl; by rewrite <- !app_assoc.
    + right. apply register_Raise in Hagain as [-> _]. by rewrite <- app_assoc.
Qed.

(** X14: a tokenizer that the constructor returns holds a vocabulary with
    the three reserved symbols, read from the path it records;
    [token2idx] is that vocabulary reversed, [vocab_size] is its number
    of distinct tokens, and the three reserved indices are the indices of
    the reserved symbols.  The only exception is [KeyError]. *)
Theorem init_postcondition (token_vocab : string) (copy_path : option string)
    (log : list event) :
  match init parse_path_args path_exists load_idx2data_file token_vocab copy_path log with
  | (Ok self, _) =>
      has_reserved (idx2token self) ∧
      idx2token self = load_idx2data_file (Tokenizer.token_vocab self) ∧
      token2idx self = reversed_dict (idx2token self) ∧
      vocab_size self = length (remove_dups (idx2token self).*2) ∧
      getitem (token2idx self) "<sos/eos>" = Ok (sos_eos_idx self) ∧
      getitem (token2idx self) "<blank>" = Ok (ignore_idx self) ∧
      getitem (token2idx self) "<unk>" = Ok (unk_idx self)
  | (Raise e, _) => e = KeyError
  end.
Proof.
  destruct (init_outcome token_vocab copy_path log)
    as [(self & Hreg & ->)|[(self & Hreg & ->)| ->]]; [| |done].
  - apply register_inv in Hreg as (Hres & Hpath & Hvocab & Hrev & Hsize & Hs & Hb & Hu).
    rewrite Hpath, Hvocab, Hrev, Hsize. split_and!; try done.
    apply reversed_dict_size.
  - apply register_inv in Hreg as (Hres & Hpath & Hvocab & Hrev & Hsize & Hs & Hb & Hu).
    rewrite Hpath, Hvocab, Hrev, Hsize. split_and!; try done.
    apply reversed_dict_size.
Qed.

(** X15: the constructor saves the backup of the vocabulary exactly when
    it succeeds and [copy_path] is given: one file, [token_vocab] under
    the resolved [copy_path], listing every token of the vocabulary once.
    Before that it only reads; when it raises, nothing is saved. *)
Theorem backup_saved (token_vocab : string) (copy_path : option string) (log : list event) :
  ∃ reads,
    Forall (fun ev => ∃ path, ev = Load path) reads ∧
    match init parse_path_args path_exists load_idx2data_file token_vocab copy_path log with
    | (Ok self, log') =>
        match copy_path with
        | Some cp =>
            ∃ rows,
              log' = log ++ reads
                     ++ [SaveTxt (path_join (parse_path_args cp) "token_vocab") rows] ∧
              NoDup rows ∧ ∀ tok, tok ∈ rows ↔ tok ∈ (idx2token self).*2
        | None => log' = log ++ reads
        end
    | (Raise _, log') => log' = log ++ reads
    end.
Proof.
  set (first := first_path parse_path_args path_exists token_vocab
                  (parse_path_args <$> copy_path)).
  set (again := parse_path_args token_vocab).
  destruct (init_outcome token_vocab copy_path log)
    as [(self & Hreg & ->)|[(self & Hreg & ->)| ->]].
  - exists [Load first]. split; [repeat constructor; by eexists|].
    apply register_inv in Hreg as (_ & _ & Hvocab & Hrev & _).
    fold first. clearbody first.
    destruct copy_path as [cp|]; simpl; [|done].
    eexists. split; [done|]. rewrite Hrev, Hvocab.
    split; [apply reversed_dict_NoDup|apply reversed_dict_keys].
  - exists [Load first; Load again]. split; [repeat constructor; by eexists|].
    apply register_inv in Hreg as (_ & _ & Hvocab & Hrev & _).
    fold first. fold again. clearbody first again.
    destruct copy_path as [cp|]; simpl; [|done].
    eexists. split; [done|]. rewrite Hrev, Hvocab.
    split; [apply reversed_dict_NoDup|apply reversed_dict_keys].
  - exists [Load first; Load again]. split; [repeat constructor; by eexists|]. done.
Qed.

End tokenizer_init.

(** ** Indices and tokens *)

Section tokenizer_lookup.
Import Tokenizer.
Implicit Types (vocab : list (Z * string)) (self : t).

(** X16: in a registered tokenizer whose vocabulary has pairwise distinct
    indices, the index that [token2idx] gives for a token is an index at
    which [idx2token] holds that token; so the three reserved indices
    hold the three reserved symbols. *)
Theorem index_of_token_decodes (path : string) vocab self (tok : string) (idx : Z) :
  register path vocab = Ok self ->
  NoDup vocab.*1 ->
  getitem (token2idx self) tok = Ok idx ->
  getitem_idx (idx2token self) idx = Ok tok.
Proof.
  intros Hreg Hnd Hget.
  apply register_inv in Hreg as (_ & _ & Hvocab & Hrev & _).
  rewrite Hvocab. rewrite Hrev in Hget. by apply getitem_decodes.
Qed.

(** X17: when a token occurs at several indices of the vocabulary,
    [token2idx] gives it the last of them; a token that occurs once gets
    its index. *)
Theorem token_gets_last_index (path : string) (before after : list (Z * string))
    self (tok : string) (idx : Z) :
  register path (before ++ (idx, tok) :: after) = Ok self ->
  tok ∉ after.*2 ->
  getitem (token2idx self) tok = Ok idx.
Proof.
  intros Hreg Hlast.
  apply register_inv in Hreg as (_ & _ & _ & Hrev & _).
  rewrite Hrev. unfold getitem. by rewrite reversed_dict_get_last.
Qed.

End tokenizer_lookup.

Lemma index_of_token_decodes_witness :
  ∃ self,
    Tokenizer.register "data/vocab" (Samples.exp_load "data/vocab") = Ok self ∧
    Tokenizer.getitem_idx (Tokenizer.idx2token self) (Tokenizer.sos_eos_idx self)
      = Ok "<sos/eos>"%string.
Proof.
  destruct (Tokenizer.register "data/vocab" (Samples.exp_load "data/vocab"))
    as [self|e] eqn:Hreg; [|by vm_compute in Hreg].
  exists self. split; [reflexivity|].
  apply (index_of_token_decodes "data/vocab" (Samples.exp_load "data/vocab") self);
    [exact Hreg| |].
  - apply (bool_decide_unpack _). vm_compute. exact I.
  - vm_compute in Hreg. injection Hreg as <-. vm_compute. reflexivity.
Defined.

Lemma token_gets_last_index_witness :
  ∃ self,
    Tokenizer.register "vocab"
      [(0, "<blank>"); (1, "a"); (2, "a"); (3, "<unk>"); (4, "<sos/eos>")]%Z%string
      = Ok self ∧
    Tokenizer.getitem (Tokenizer.token2idx self) "a" = Ok 2%Z ∧
    Tokenizer.vocab_size self = 4.
Proof.
  destruct (Tokenizer.register "vocab"
      [(0, "<blank>"); (1, "a"); (2, "a"); (3, "<unk>"); (4, "<sos/eos>")]%Z%string)
    as [self|e] eqn:Hreg; [|by vm_compute in Hreg].
  exists self. split; [reflexivity|]. split.
  - apply (token_gets_last_index "vocab"
             [(0, "<blank>"); (1, "a")]%Z%string
             [(3, "<unk>"); (4, "<sos/eos>")]%Z%string self "a" 2%Z Hreg).
    apply (bool_decide_unpack _). vm_compute. exact I.
  - vm_compute in Hreg. by injection Hreg as <-.
Defined.

(** ** Decoding *)

Section tensor2text.
Import Tokenizer.
Implicit Types (self : t) (tensor : list Z).

Lemma string_app_nil_r (s : string) : (s ++ "")%string = s.
Proof.
  induction s as [|c s IH]; [done|].
  change (String c (s ++ "")%string = String c s). f_equal. exact IH.
Qed.

Lemma string_app_assoc (a b c : string) : ((a ++ b) ++ c)%string = (a ++ b ++ c)%string.
Proof.
  induction a as [|x a IH]; [done|].
  change (String x ((a ++ b) ++ c)%string = String x (a ++ b ++ c)%string).
  f_equal. exact IH.
Qed.

Lemma concat_empty_cons (x : string) (xs : list string) :
  String.concat "" (x :: xs) = (x ++ String.concat "" xs)%string.
Proof.
  destruct xs as [|y ys]; [|reflexivity].
  symmetry. apply string_app_nil_r.
Qed.

Lemma concat_empty_app (xs ys : list string) :
  String.concat "" (xs ++ ys) = (String.concat "" xs ++ String.concat "" ys)%string.
Proof.
  induction xs as [|x xs IH]; [done|].
  change ((x :: xs) ++ ys) with (x :: (xs ++ ys)).
  by rewrite !concat_empty_cons, IH, string_app_assoc.
Qed.

Lemma res_map_app {A B} (f : A -> res B) (l1 l2 : list A) :
  res_map f (l1 ++ l2) = (a ← res_map f l1; b ← res_map f l2; Ok (a ++ b)).
Proof.
  induction l1 as [|x l1 IH]; simpl.
  - by destruct (res_map f l2).
  - destruct (f x) as [y|e]; res_simpl; [|done]. rewrite IH.
    destruct (res_map f l1) as [ys|e]; res_simpl; [|done].
    by destruct (res_map f l2).
Qed.

(** X18: decoding a concatenation of index lists gives the decoded parts,
    concatenated; it raises when one of the parts does. *)
Theorem tensor2text_app self (tensor1 tensor2 : list Z) :
  tensor2text self (tensor1 ++ tensor2)
  = (text1 ← tensor2text self tensor1;
     text2 ← tensor2text self tensor2;
     Ok (text1 ++ text2)%string).
Proof.
  unfold tensor2text. rewrite List.filter_app, res_map_app.
  destruct (res_map _ (List.filter _ tensor1)) as [p1|e]; res_simpl; [|done].
  destruct (res_map _ (List.filter _ tensor2)) as [p2|e]; res_simpl; [|done].
  by rewrite concat_empty_app.
Qed.

(** X19: the indices equal to [sos_eos_idx] leave no trace in the decoded
    text, wherever they are and even when [sos_eos_idx] is not an index
    of the vocabulary: decoding a list and decoding it without them give
    the same result. *)
Theorem tensor2text_skips_sos_eos self tensor :
  tensor2text self (List.filter (fun idx => negb (idx =? sos_eos_idx self)%Z) tensor)
  = tensor2text self tensor.
Proof.
  unfold tensor2text. f_equal. f_equal.
  induction tensor as [|idx tensor IH]; simpl; [done|].
  destruct (negb (idx =? sos_eos_idx self)%Z) eqn:Hidx; simpl; [|done].
  by rewrite Hidx, IH.
Qed.

(** X20: decoding raises [KeyError] exactly when the list holds an index
    that is neither [sos_eos_idx] nor [unk_idx] nor an index of the
    vocabulary; it raises nothing else. *)
Theorem tensor2text_KeyError self tensor :
  (tensor2text self tensor = Raise KeyError ∧
   ∃ idx, idx ∈ tensor ∧ idx ≠ sos_eos_idx self ∧ idx ≠ unk_idx self ∧
          idx ∉ (idx2token self).*1)
  ∨
  ((∃ text, tensor2text self tensor = Ok text) ∧
   ∀ idx, idx ∈ tensor ->
          idx = sos_eos_idx self ∨ idx = unk_idx self ∨ idx ∈ (idx2token self).*1).
Proof.
  unfold tensor2text.
  induction tensor as [|idx tensor IH]; simpl.
  - right. split; [by eexists|]. by intros idx ?%elem_of_nil.
  - destruct (Z.eqb_spec idx (sos_eos_idx self)) as [Hs|Hs]; simpl.
    + destruct IH as [(Hr & j & Hj & ?)|[Hok Hall]].
      * left. split; [done|]. exists j. split; [|done]. apply elem_of_cons. by right.
      * right. split; [done|]. intros j [->|Hj]%elem_of_cons; [by left|by apply Hall].
    + destruct (Z.eqb_spec idx (unk_idx self)) as [Hu|Hu]; simpl.
      * destruct IH as [(Hr & j & Hj & ?)|[[text Hok] Hall]].
        -- left. split.
           ++ destruct (res_map _ (List.filter _ tensor)) as [p|e]; [done|].
              res_simpl. exact Hr.
           ++ exists j. split; [|done]. apply elem_of_cons. by right.
        -- right. split.
           ++ destruct (res_map _ (List.filter _ tensor)) as [p|e]; [|done].
              res_simpl. by eexists.
           ++ intros j [->|Hj]%elem_of_cons; [by right; left|by apply Hall].
      * unfold getitem_idx.
        destruct (od_get Z.eqb idx (idx2token self)) as [tok|] eqn:Htok; res_simpl.
        -- destruct IH as [(Hr & j & Hj & ?)|[[text Hok] Hall]].
           ++ left. split.
              ** destruct (res_map _ (List.filter _ tensor)) as [p|e]; [done|].
                 res_simpl. exact Hr.
              ** exists j. split; [|done]. apply elem_of_cons. by right.
           ++ right. split.
              ** destruct (res_map _ (List.filter _ tensor)) as [p|e]; [|done].
                 res_simpl. by eexists.
              ** intros j [->|Hj]%elem_of_cons; [|by apply Hall].
                 right. right. apply od_get_Z_elem_of in Htok.
                 by apply (list_elem_of_fmap_2 fst) in Htok.
        -- left. split; [done|]. exists idx. split_and!; [|done..|].
           ++ apply elem_of_cons. by left.
           ++ by apply od_get_Z_None.
Qed.

End tensor2text.

Section round_trip.
Import Tokenizer.

(** X21: in a registered tokenizer whose vocabulary has pairwise distinct
    indices, decoding the indices that [token2idx] gives for a list of
    tokens, none of them "<unk>" or "<sos/eos>", returns the tokens
    joined. *)
Theorem decode_token_indices (path : string) (vocab : list (Z * string)) (self : t)
    (toks : list string) (tensor : list Z) :
  register path vocab = Ok self ->
  NoDup vocab.*1 ->
  Forall2 (fun tok idx => getitem (token2idx self) tok = Ok idx) toks tensor ->
  Forall (fun tok => tok ≠ "<unk>"%string ∧ tok ≠ "<sos/eos>"%string) toks ->
  tensor2text self tensor = Ok (String.concat "" toks).
Proof.
  intros Hreg Hnd Hidx Htoks.
  apply register_inv in Hreg as (_ & _ & Hvocab & Hrev & _ & Hs & _ & Hu).
  rewrite Hrev in Hidx. unfold tensor2text. rewrite Hvocab.
  apply (getitem_decodes _ _ _ Hnd) in Hs, Hu.
  cut (res_map
         (fun idx => if negb (idx =? unk_idx self)%Z then getitem_idx vocab idx
                     else Ok "*"%string)
         (List.filter (fun idx => negb (idx =? sos_eos_idx self)%Z) tensor) = Ok toks).
  { intros ->. by res_simpl. }
  induction Hidx as [|tok idx toks tensor Hget _ IH]; [done|].
  apply Forall_cons in Htoks as [[Hnu Hns] Htoks].
  apply (getitem_decodes _ _ _ Hnd) in Hget.
  simpl.
  destruct (Z.eqb_spec idx (sos_eos_idx self)) as [->|_]; [congruence|]. simpl.
  destruct (Z.eqb_spec idx (unk_idx self)) as [->|_]; [congruence|]. simpl.
  rewrite Hget, (IH Htoks). by res_simpl.
Qed.

Lemma decode_token_indices_witness :
  ∃ self,
    register "data/vocab" (Samples.exp_load "data/vocab") = Ok self ∧
    tensor2text self [1; 0; 1]%Z = Ok "AH0<blank>AH0"%string.
Proof.
  destruct (register "data/vocab" (Samples.exp_load "data/vocab"))
    as [self|e] eqn:Hreg; [|by vm_compute in Hreg].
  exists self. split; [reflexivity|].
  apply (decode_token_indices "data/vocab" (Samples.exp_load "data/vocab") self
           ["AH0"; "<blank>"; "AH0"]%string [1; 0; 1]%Z Hreg).
  - apply (bool_decide_unpack _). vm_compute. exact I.
  - vm_compute in Hreg. injection Hreg as <-.
    repeat constructor.
  - repeat constructor; discriminate.
Defined.

Lemma remove_dups_NoDup_length {A} `{EqDecision A} (l : list A) :
  NoDup l -> length (remove_dups l) = length l.
Proof.
  intros Hnd. apply Permutation_length, NoDup_Permutation;
    [apply NoDup_remove_dups|done|apply elem_of_remove_dups].
Qed.

(** X22: a vocabulary that [dump_subset_metadata] writes always holds the
    three reserved symbols, so registering any index-to-token dictionary
    with these tokens raises no [KeyError]; when the vocabulary has no
    duplicate, [vocab_size] is its number of rows. *)
Theorem dumped_vocabulary_registers (subset_indices : list string)
    (idx2text : gmap string (list string)) (idx2duration : gmap string (list PyNum.num)) :
  ∃ md,
    Duration.dump_subset_metadata subset_indices idx2text idx2duration = Ok md ∧
    ∀ (path : string) (vocab : list (Z * string)),
      vocab.*2 = Duration.vocab_rows md ->
      ∃ self, register path vocab = Ok self ∧
              (NoDup (Duration.vocab_rows md) ->
               vocab_size self = length (Duration.vocab_rows md)).
Proof.
  destruct (build_vocab_spec (Duration.subset_of subset_indices idx2text))
    as (ranked & Hvocab & _).
  eexists. split; [by apply dump_subset_metadata_vocab|]. simpl.
  intros path vocab Hrows.
  assert (Hres : has_reserved vocab).
  { unfold has_reserved. rewrite Hrows. split_and!.
    - apply elem_of_cons. right. apply elem_of_app. right.
      apply elem_of_cons. right. by apply list_elem_of_singleton.
    - apply elem_of_cons. by left.
    - apply elem_of_cons. right. apply elem_of_app. right.
      apply elem_of_cons. by left. }
  destruct (register_Ok path vocab Hres) as (sos & ign & unk & _ & _ & _ & Hreg).
  eexists. split; [exact Hreg|]. simpl. intros Hnd.
  rewrite reversed_dict_size, Hrows.
  exact (remove_dups_NoDup_length _ Hnd).
Qed.

Lemma dumped_vocabulary_registers_witness :
  ∃ md self,
    Duration.dump_subset_metadata ["u1"; "u2"]%string
      Samples.subset_text Samples.subset_duration = Ok md ∧
    register "vocab" (imap (fun i tok => (Z.of_nat i, tok)) (Duration.vocab_rows md))
      = Ok self ∧
    ignore_idx self = 0%Z ∧ unk_idx self = 5%Z ∧ sos_eos_idx self = 6%Z ∧
    vocab_size self = 7.
Proof.
  destruct (dumped_vocabulary_registers ["u1"; "u2"]%string
              Samples.subset_text Samples.subset_duration) as (md & Hmd & Hreg).
  destruct (Hreg "vocab"%string
              (imap (fun i tok => (Z.of_nat i, tok)) (Duration.vocab_rows md)))
    as (self & Hself & _).
  { vm_compute in Hmd. injection Hmd as <-. vm_compute. reflexivity. }
  exists md, self. split; [exact Hmd|]. split; [exact Hself|].
  vm_compute in Hmd. injection Hmd as <-.
  vm_compute in Hself. injection Hself as <-. by vm_compute.
Defined.

End round_trip.

(** ** The driver *)

Section main.
Import Duration Main.
Context (parse_path_args : string -> string)
        (search_file_in_subfolder : string -> list string)
        (listdir : string -> list string)
        (load_idx2wav_keys : string -> list string)
        (fromFile : string -> TextGrid).

(** One dump logs the rows of [dump_subset_metadata]; computing them
    raises nothing. *)
Lemma dump_subset_metadata_io_spec (dataset_path save_path subset_name : string)
    (retain_stress : bool)
    (idx2text : gmap string (list string)) (idx2duration : gmap string (list PyNum.num))
    (log : list write) :
  ∃ md,
    dump_subset_metadata
      (load_idx2wav_keys (path_join_all dataset_path [subset_name; "idx2wav"%string]))
      idx2text idx2duration = Ok md ∧
    dump_subset_metadata_io load_idx2wav_keys dataset_path save_path subset_name
      retain_stress idx2text idx2duration log
    = (None,
       log ++ metadata_writes
                (path_join_all save_path
                   [subset_name;
                    if retain_stress then "stress"%string else "no-stress"%string])
                md).
Proof.
  set (subset_indices :=
         load_idx2wav_keys (path_join_all dataset_path [subset_name; "idx2wav"%string])).
  destruct (build_vocab_spec (subset_of subset_indices idx2text)) as (ranked & Hvocab & _).
  eexists. split; [by apply dump_subset_metadata_vocab|].
  unfold dump_subset_metadata_io. fold subset_indices. rewrite Hvocab.
  unfold metadata_writes. simpl. by rewrite <- app_assoc.
Qed.

Lemma dump_each_spec (dataset_path save_path : string) (names : list string)
    (retain_stress : bool)
    (idx2text : gmap string (list string)) (idx2duration : gmap string (list PyNum.num))
    (log : list write) :
  ∃ mds,
    Forall2 (fun name md =>
               dump_subset_metadata
                 (load_idx2wav_keys (path_join_all dataset_path [name; "idx2wav"%string]))
                 idx2text idx2duration = Ok md) names mds ∧
    dump_each load_idx2wav_keys dataset_path save_path names retain_stress
      idx2text idx2duration log
    = (None,
       log ++ concat (zip_with
                (fun name md =>
                   metadata_writes
                     (path_join_all save_path
                        [name; if retain_stress then "stress"%string
                               else "no-stress"%string]) md)
                names mds)).
Proof.
  revert log. induction names as [|name names IH]; intros log.
  - exists []. split; [constructor|]. simpl. by rewrite app_nil_r.
  - destruct (dump_subset_metadata_io_spec dataset_path save_path name retain_stress
                idx2text idx2duration log) as (md & Hmd & Hio).
    destruct (IH (log ++ metadata_writes
                    (path_join_all save_path
                       [name; if retain_stress then "stress"%string
                              else "no-stress"%string]) md))
      as (mds & Hmds & Heach).
    exists (md :: mds). split; [by constructor|].
    cbn [dump_each]. rewrite Hio, Heach. cbn [zip_with concat].
    by rewrite <- app_assoc.
Qed.

(** X23: the three failures of [main] that precede every write leave
    the log as it was: [AssertionError] for a data set other than the
    three; for one of the three, [RuntimeError] when the search finds no
    TextGrid file; and, when it finds some, [ValueError] for zero
    workers. *)
Theorem main_fails_before_writing (data_path pretrained_model_name : string)
    (retain_stress : bool) (dataset_name : string) (subset_name save_path : option string)
    (ncpu : nat) (log : list write) :
  let textgrid_path :=
    let root := path_join_all (parse_path_args data_path)
                  ["mfa"%string; pretrained_model_name; "TextGrid"%string] in
    match subset_name with
    | Some name => path_join root name
    | None => root
    end in
  let out := main parse_path_args search_file_in_subfolder listdir load_idx2wav_keys
               fromFile data_path pretrained_model_name retain_stress dataset_name
               subset_name save_path ncpu log in
  (dataset_name ∉ ["ljspeech"; "libritts"; "librispeech"]%string ->
   out = (Some AssertionError, log)) ∧
  (dataset_name ∈ ["ljspeech"; "libritts"; "librispeech"]%string ->
   search_file_in_subfolder textgrid_path = [] ->
   out = (Some (Raised RuntimeError), log)) ∧
  (dataset_name ∈ ["ljspeech"; "libritts"; "librispeech"]%string ->
   search_file_in_subfolder textgrid_path ≠ [] ->
   ncpu = 0 ->
   out = (Some (Raised ValueError), log)).
Proof.
  intros textgrid_path out. subst out. unfold main.
  fold textgrid_path. clearbody textgrid_path.
  split_and!.
  - intros Hname.
    assert (Hex : existsb (String.eqb dataset_name)
                    ["ljspeech"; "libritts"; "librispeech"]%string = false).
    { destruct (existsb _ _) eqn:Hex; [|done].
      by apply existsb_eqb_elem_of in Hex. }
    by rewrite Hex.
  - intros Hname Hfiles.
    apply existsb_eqb_elem_of in Hname. rewrite Hname. simpl negb. cbv iota.
    rewrite Hfiles. reflexivity.
  - intros Hname Hfiles ->.
    apply existsb_eqb_elem_of in Hname. rewrite Hname. simpl negb. cbv iota.
    unfold main_gather.
    destruct (search_file_in_subfolder textgrid_path); [done|]. reflexivity.
Qed.

(** X24: when [main] returns, it has written, for the given subset or
    else for every name that [os.listdir] gives, in order, the rows that
    [dump_subset_metadata] computes from the gathered dictionaries and
    the subset's [idx2wav] keys: a folder and the files [idx2text],
    [idx2text_len], [vocab] and [idx2duration] under
    [save_path/<subset>/stress] or [save_path/<subset>/no-stress]. *)
Theorem main_writes (data_path pretrained_model_name : string)
    (retain_stress : bool) (dataset_name : string) (subset_name save_path : option string)
    (ncpu : nat) (log log' : list write) :
  let data := parse_path_args data_path in
  let save :=
    match save_path with
    | Some p => p
    | None => path_join_all data ["mfa"%string; pretrained_model_name]
    end in
  let textgrid_path :=
    let root := path_join_all data
                  ["mfa"%string; pretrained_model_name; "TextGrid"%string] in
    match subset_name with
    | Some name => path_join root name
    | None => root
    end in
  let names :=
    match subset_name with
    | Some name => [name]
    | None => listdir textgrid_path
    end in
  main parse_path_args search_file_in_subfolder listdir load_idx2wav_keys
    fromFile data_path pretrained_model_name retain_stress dataset_name
    subset_name save_path ncpu log = (None, log') ->
  ∃ idx2text idx2duration mds,
    main_gather fromFile (search_file_in_subfolder textgrid_path) retain_stress ncpu
      = Ok (idx2text, idx2duration) ∧
    Forall2 (fun name md =>
               dump_subset_metadata
                 (load_idx2wav_keys
                    (path_join_all (path_join data "wav") [name; "idx2wav"%string]))
                 idx2text idx2duration = Ok md) names mds ∧
    log' = log ++ concat (zip_with
             (fun name md =>
                metadata_writes
                  (path_join_all save
                     [name; if retain_stress then "stress"%string
                            else "no-stress"%string]) md)
             names mds).
Proof.
  intros data save textgrid_path names. unfold main.
  fold data. fold save. fold textgrid_path.
  destruct (negb _); [done|].
  destruct (main_gather fromFile (search_file_in_subfolder textgrid_path)
              retain_stress ncpu) as [[T D]|e]; [|done].
  subst names. clearbody textgrid_path save data.
  destruct subset_name as [name|].
  - destruct (dump_subset_metadata_io_spec (path_join data "wav") save name
                retain_stress T D log) as (md & Hmd & ->).
    intros [= <-]. exists T, D, [md]. split; [done|].
    split; [by repeat constructor|]. cbn [zip_with concat]. by rewrite app_nil_r.
  - destruct (dump_each_spec (path_join data "wav") save (listdir textgrid_path)
                retain_stress T D log) as (mds & Hmds & ->).
    intros [= <-]. by exists T, D, mds.
Qed.

End main.

Lemma main_fails_before_writing_witness :
  Main.main (fun p => p) (fun _ => Samples.three_files) (fun _ => ["train"%string])
    (fun _ => ["a"; "c"]%string) Samples.three_grids
    "data" "model" true "timit" None None 2 []
  = (Some Main.AssertionError, []) ∧
  Main.main (fun p => p) (fun _ => []) (fun _ => ["train"%string])
    (fun _ => ["a"; "c"]%string) Samples.three_grids
    "data" "model" true "libritts" None None 2 []
  = (Some (Main.Raised RuntimeError), []) ∧
  Main.main (fun p => p) (fun _ => Samples.three_files) (fun _ => ["train"%string])
    (fun _ => ["a"; "c"]%string) Samples.three_grids
    "data" "model" true "libritts" None None 0 []
  = (Some (Main.Raised ValueError), []).
Proof.
  split_and!.
  - pose proof (main_fails_before_writing (fun p => p) (fun _ => Samples.three_files)
                  (fun _ => ["train"%string]) (fun _ => ["a"; "c"]%string)
                  Samples.three_grids "data" "model" true "timit" None None 2 [])
      as H.
    cbv zeta in H. destruct H as (H & _ & _). apply H.
    apply (bool_decide_unpack _). vm_compute. exact I.
  - pose proof (main_fails_before_writing (fun p => p) (fun _ => [])
                  (fun _ => ["train"%string]) (fun _ => ["a"; "c"]%string)
                  Samples.three_grids "data" "model" true "libritts" None None 2 [])
      as H.
    cbv zeta in H. destruct H as (_ & H & _). apply H.
    + apply (bool_decide_unpack _). vm_compute. exact I.
    + reflexivity.
  - pose proof (main_fails_before_writing (fun p => p) (fun _ => Samples.three_files)
                  (fun _ => ["train"%string]) (fun _ => ["a"; "c"]%string)
                  Samples.three_grids "data" "model" true "libritts" None None 0 [])
      as H.
    cbv zeta in H. destruct H as (_ & _ & H). apply H.
    + apply (bool_decide_unpack _). vm_compute. exact I.
    + discriminate.
    + reflexivity.
Defined.

Lemma main_writes_witness :
  ∃ log' md,
    Main.main (fun p => p) (fun _ => Samples.three_files) (fun _ => ["train"%string])
      (fun _ => ["a"; "c"]%string) Samples.three_grids
      "data" "model" true "libritts" (Some "train"%string) None 2 []
    = (None, log') ∧
    log' = Main.metadata_writes "data/mfa/model/train/stress" md ∧
    Duration.vocab_rows md = ["<blank>"; "AE1"; "T"; "<space>"; "<unk>"; "<sos/eos>"]%string.
Proof.
  destruct (Main.main (fun p => p) (fun _ => Samples.three_files)
              (fun _ => ["train"%string]) (fun _ => ["a"; "c"]%string) Samples.three_grids
              "data" "model" true "libritts" (Some "train"%string) None 2 [])
    as [o log'] eqn:Hmain.
  pose proof Hmain as Hrun. vm_compute in Hrun. injection Hrun as Ho Hlog.
  rewrite <- Ho in Hmain.
  destruct (main_writes (fun p => p) (fun _ => Samples.three_files)
              (fun _ => ["train"%string]) (fun _ => ["a"; "c"]%string) Samples.three_grids
              "data" "model" true "libritts" (Some "train"%string) None 2 [] log' Hmain)
    as (T & D & mds & _ & Hall & Hlog').
  cbv beta iota zeta in Hall.
  destruct (Forall2_cons_inv_l _ _ _ _ Hall) as (md & mds' & _ & Hnil & Hmds).
  apply Forall2_nil_inv_l in Hnil. rewrite Hnil in Hmds. rewrite Hmds in Hlog'.
  cbn [zip_with concat] in Hlog'. rewrite app_nil_r in Hlog'. simpl app in Hlog'.
  exists log', md. rewrite <- Ho. split; [reflexivity|].
  split; [exact Hlog'|].
  rewrite Hlog' in Hlog. unfold Main.metadata_writes in Hlog.
  exact (eq_sym (f_equal (fun l : list Main.write =>
                           match l with
                           | [_; _; _; Main.SaveVocab _ rows; _; _] => rows
                           | _ => []
                           end) Hlog)).
Defined.

(** ** The stress flag and the keys *)

Section stress_and_keys.
Import Duration.

Lemma phn_token_no_digit (retain_stress : bool) (m : string) :
  (∀ c, PyStr.last_char m = Ok c -> PyStr.isdigit c = false) ->
  is_silence m = false ->
  phn_token retain_stress m = phn_token true m.
Proof.
  intros Hc Hm. destruct retain_stress; [done|].
  unfold phn_token. simpl.
  destruct (PyStr.last_char m) as [c|e] eqn:Hlast.
  - res_simpl. by rewrite (Hc c eq_refl).
  - destruct (string_snoc_inv m (is_silence_nonempty m Hm)) as [c Heq].
    rewrite Heq, last_char_snoc in Hlast. discriminate.
Qed.

Lemma record_phn_no_digit (retain_stress : bool) (phn : Interval) (st : seqs) :
  (∀ c, PyStr.last_char (mark phn) = Ok c -> PyStr.isdigit c = false) ->
  record_phn retain_stress phn st = record_phn true phn st.
Proof.
  intros Hc. unfold record_phn.
  destruct (is_silence (mark phn)) eqn:Hm; simpl; [done|].
  by rewrite (phn_token_no_digit retain_stress).
Qed.

(** X25: [retain_stress] only matters for marks that end in a digit: on a
    phoneme tier whose marks all end in an ASCII character that is not
    one of ['0'] to ['9'], the scan gives the same two lists for both
    settings.  (On ASCII characters [PyStr.isdigit] is Python's
    [isdigit].) *)
Theorem retain_stress_only_for_digits (wbd : list (float * bool))
    (phns : list Interval) (st : seqs) :
  Forall (fun phn => ∀ c, PyStr.last_char (mark phn) = Ok c ->
                          PyStr.is_ascii_char c = true ∧ PyStr.isdigit c = false)
    phns ->
  scan_phns false wbd phns st = scan_phns true wbd phns st.
Proof.
  intros Hall. revert st. induction Hall as [|phn phns Hphn _ IH]; intros st; [done|].
  simpl. unfold phn_step.
  rewrite (record_phn_no_digit false) by (intros c Hc; exact (proj2 (Hphn c Hc))).
  destruct (record_phn true phn st) as [st1|e]; res_simpl; [apply IH|done].
Qed.

Lemma retain_stress_only_for_digits_witness :
  scan_phns false [] [mkInterval 0 0.1 "HH"; mkInterval 0.1 0.3 "sp"; mkInterval 0.3 0.35 "M"]
    ([], [])
  = scan_phns true [] [mkInterval 0 0.1 "HH"; mkInterval 0.1 0.3 "sp"; mkInterval 0.3 0.35 "M"]
    ([], []).
Proof.
  apply retain_stress_only_for_digits.
  repeat (apply Forall_cons_2;
            [simpl; intros c Hc; injection Hc as <-; split; reflexivity|]).
  apply Forall_nil_2.
Defined.

Lemma has_sep_elem_of (s : string) :
  PyStr.has_sep s = false ↔ "/"%char ∉ list_ascii_of_string s.
Proof.
  induction s as [|c s IH]; simpl.
  - split; [intros _; apply not_elem_of_nil|done].
  - rewrite not_elem_of_cons, orb_false_iff, IH.
    destruct (Ascii.eqb_spec c "/") as [->|Hne].
    + split; intros [? ?]; done.
    + split; intros [? ?]; (split; [|done]); [by intros <-|done].
Qed.

Lemma has_sep_app (a b : string) :
  PyStr.has_sep (a ++ b) = PyStr.has_sep a || PyStr.has_sep b.
Proof.
  induction a as [|c a IH]; [done|].
  change (PyStr.has_sep (String c (a ++ b)%string)
          = PyStr.has_sep (String c a) || PyStr.has_sep b).
  simpl. rewrite IH. by rewrite orb_assoc.
Qed.

Lemma basename_no_sep (s : string) : PyStr.has_sep s = false -> PyStr.basename s = s.
Proof.
  destruct s as [|c s]; [done|]. simpl.
  intros [Hc Hs]%orb_false_iff. by rewrite Hs, Hc.
Qed.

(** [os.path.basename] of a folder, a slash and a name without slash *)
Lemma basename_join (dir name : string) :
  PyStr.has_sep name = false ->
  PyStr.basename (dir ++ "/" ++ name) = name.
Proof.
  intros Hname. induction dir as [|c dir IH].
  - change (PyStr.basename (String "/" name) = name). simpl. by rewrite Hname.
  - change (PyStr.basename (String c (dir ++ "/" ++ name)%string) = name).
    cbn [PyStr.basename]. rewrite has_sep_app. simpl.
    rewrite orb_true_r. exact IH.
Qed.

Lemma split_dot_0_app (name ext : string) :
  "."%char ∉ list_ascii_of_string name ->
  PyStr.split_dot_0 (name ++ "." ++ ext) = name.
Proof.
  induction name as [|c name IH]; [done|].
  simpl list_ascii_of_string. intros [Hc Hname]%not_elem_of_cons.
  change (PyStr.split_dot_0 (String c (name ++ "." ++ ext)%string) = String c name).
  cbn [PyStr.split_dot_0].
  destruct (Ascii.eqb_spec c ".") as [->|_]; [done|].
  by rewrite IH.
Qed.

(** X26: the key of the file [dir/name.ext], for a [name] with neither
    slash nor dot and an [ext] without slash, is [name]: the folders and
    everything from the first dot on are dropped. *)
Theorem file_name_of_path (dir name ext : string) :
  "/"%char ∉ list_ascii_of_string name ->
  "."%char ∉ list_ascii_of_string name ->
  "/"%char ∉ list_ascii_of_string ext ->
  file_name (dir ++ "/" ++ name ++ "." ++ ext) = name.
Proof.
  intros Hname Hdot Hext. unfold file_name.
  rewrite basename_join.
  - by apply split_dot_0_app.
  - rewrite has_sep_app. apply has_sep_elem_of in Hname. rewrite Hname. simpl.
    by apply has_sep_elem_of.
Qed.

Lemma file_name_of_path_witness :
  file_name "data/mfa/model/TextGrid/train/84_121123_000007.v2.TextGrid"
  = "84_121123_000007"%string.
Proof.
  apply (file_name_of_path "data/mfa/model/TextGrid/train" "84_121123_000007"
           "v2.TextGrid");
    apply (bool_decide_unpack _); vm_compute; exact I.
Defined.

End stress_and_keys.
